(** * Talking-Sick: the multi-agent motion model

    A shallow embedding of [multi-agent-simulation/vector2d.py],
    [boundary.py], [agent.py] and [simulation.py].

    Numbers are the reals of the Standard Library: a Python [float] is read
    as the real number it approximates, so rounding, overflow, NaN and
    infinities are outside the model.  What Python raises is kept: a call
    returns [Ok v] or [Raise e].  The process-wide random source is an
    explicit stream that the calls consuming entropy thread through. *)

From stdpp Require Import base list.
From Stdlib Require Import Reals Lra Lia ZArith.

Local Open Scope R_scope.

(** ** Python results *)

Inductive exn : Type :=
| ZeroDivisionError
| ValueError
| AttributeError
| IndexError.

Inductive result (A : Type) : Type :=
| Ok (a : A)
| Raise (e : exn).

Arguments Ok {A} a.
Arguments Raise {A} e.

Definition bind {A B : Type} (m : result A) (k : A -> result B) : result B :=
  match m with
  | Ok a => k a
  | Raise e => Raise e
  end.

Notation "'let*' x ':=' m 'in' k" := (bind m (fun x => k))
  (at level 10, x pattern, m at level 100, k at level 200).

Definition returns {A : Type} (m : result A) : Prop := exists a, m = Ok a.

(** Comparisons of two floats, as booleans. *)

Definition Rltb (a b : R) : bool := if Rlt_dec a b then true else false.
Definition Rleb (a b : R) : bool := if Rle_dec a b then true else false.
Definition Rgeb (a b : R) : bool := if Rge_dec a b then true else false.
Definition Reqb (a b : R) : bool := if Req_dec_T a b then true else false.

(** [a / b] on floats raises [ZeroDivisionError] when [b] is zero. *)
Definition py_div (a b : R) : result R :=
  if Reqb b 0 then Raise ZeroDivisionError else Ok (a / b).

(** [math.sqrt] raises [ValueError] on a negative argument. *)
Definition math_sqrt (a : R) : result R :=
  if Rltb a 0 then Raise ValueError else Ok (sqrt a).

(** [math.atan2(y, x)], total on the reals. *)
Definition math_atan2 (b a : R) : R :=
  if Rltb 0 a then atan (b / a)
  else if Rltb a 0 then (if Rleb 0 b then atan (b / a) + PI else atan (b / a) - PI)
  else if Rltb 0 b then PI / 2
  else if Rltb b 0 then - (PI / 2)
  else 0.

(** Python's [min(a, b)] keeps [a] unless [b < a]. *)
Definition py_min (a b : R) : R := if Rltb b a then b else a.
Definition py_max (a b : R) : R := if Rltb a b then b else a.

(** [min(l)] and [max(l)] of a list raise [ValueError] on the empty list. *)
Definition py_min_list (l : list R) : result R :=
  match l with
  | [] => Raise ValueError
  | a :: l' => Ok (fold_left py_min l' a)
  end.
Definition py_max_list (l : list R) : result R :=
  match l with
  | [] => Raise ValueError
  | a :: l' => Ok (fold_left py_max l' a)
  end.

(** [sum(l)], from the start value 0. *)
Definition py_sum (l : list R) : R := fold_left Rplus l 0.

(** [int(r)] of a float: the integer part, rounded towards zero. *)
Definition py_int (r : R) : Z :=
  if Rltb r 0 then (- Int_part (- r))%Z else Int_part r.

(** ** The random source

    [random.random()], [random.gauss] and [np.random.uniform] read one raw
    variate each from the stream: a number of [[0,1)] for the uniform
    draws, a standard normal one for [gauss]. *)

Record Rng : Type := mkRng { stream : nat -> R; cursor : nat }.

Definition next_variate (g : Rng) : R * Rng :=
  (stream g (cursor g), mkRng (stream g) (S (cursor g))).

Definition uniform (a b : R) (g : Rng) : R * Rng :=
  let (u, g') := next_variate g in (a + (b - a) * u, g').

Definition gauss (mu sigma : R) (g : Rng) : R * Rng :=
  let (z, g') := next_variate g in (mu + z * sigma, g').

(** ** vector2d.py *)

Module Vector2D.

Record t : Type := mk { x : R; y : R }.

Definition zero : t := mk 0 0.

Definition add (self other : t) : t := mk (x self + x other) (y self + y other).
Definition sub (self other : t) : t := mk (x self - x other) (y self - y other).
Definition mul (self : t) (scalar : R) : t := mk (x self * scalar) (y self * scalar).
Definition rmul (self : t) (scalar : R) : t := mul self scalar.

Definition truediv (self : t) (scalar : R) : result t :=
  let* a := py_div (x self) scalar in
  let* b := py_div (y self) scalar in
  Ok (mk a b).

(** Over the reals [x ** 2] always has a value; on floats it raises
    [OverflowError] once the square leaves the float range, which this
    embedding does not show. *)
Definition magnitude (self : t) : result R :=
  math_sqrt (x self ^ 2 + y self ^ 2).

Definition normalize (self : t) : result t :=
  let* mag := magnitude self in
  if Reqb mag 0 then Ok (mk 0 0)
  else
    let* a := py_div (x self) mag in
    let* b := py_div (y self) mag in
    Ok (mk a b).

Definition distance_to (self other : t) : result R := magnitude (sub self other).

Definition dot (self other : t) : R := x self * x other + y self * y other.

Definition angle (self : t) : R := math_atan2 (y self) (x self).

Definition rotate (self : t) (a : R) : t :=
  let cos_a := cos a in
  let sin_a := sin a in
  mk (x self * cos_a - y self * sin_a) (x self * sin_a + y self * cos_a).

Definition add_randomness (self : t) (std_dev : R) (g : Rng) : t * Rng :=
  let (nx, g1) := gauss 0 std_dev g in
  let (ny, g2) := gauss 0 std_dev g1 in
  (mk (x self + nx) (y self + ny), g2).

Definition copy (self : t) : t := mk (x self) (y self).

(** The Euclidean length, as a real number. *)
Definition norm (v : t) : R := sqrt (x v ^ 2 + y v ^ 2).

End Vector2D.

(** ** boundary.py *)

Module Boundary.

Record t : Type := mk {
  width : R; height : R;
  min_x : R; max_x : R; min_y : R; max_y : R
}.

Definition new (width height : R) : t := mk width height 0 width 0 height.

Definition is_within_bounds (self : t) (position : Vector2D.t) : bool :=
  (Rleb (min_x self) (Vector2D.x position) && Rleb (Vector2D.x position) (max_x self))
  && (Rleb (min_y self) (Vector2D.y position) && Rleb (Vector2D.y position) (max_y self)).

Definition is_near_boundary (self : t) (position : Vector2D.t) (threshold : R) : bool :=
  Rleb (Vector2D.x position) (min_x self + threshold)
  || Rgeb (Vector2D.x position) (max_x self - threshold)
  || Rleb (Vector2D.y position) (min_y self + threshold)
  || Rgeb (Vector2D.y position) (max_y self - threshold).

(** [min(dist_left, dist_right, dist_bottom, dist_top)]. *)
Definition min_dist (self : t) (position : Vector2D.t) : R :=
  let dist_left := Rabs (Vector2D.x position - min_x self) in
  let dist_right := Rabs (Vector2D.x position - max_x self) in
  let dist_bottom := Rabs (Vector2D.y position - min_y self) in
  let dist_top := Rabs (Vector2D.y position - max_y self) in
  py_min (py_min (py_min dist_left dist_right) dist_bottom) dist_top.

Definition get_tangent_at_point (self : t) (position : Vector2D.t) : Vector2D.t :=
  let dist_left := Rabs (Vector2D.x position - min_x self) in
  let dist_right := Rabs (Vector2D.x position - max_x self) in
  let min_dist := min_dist self position in
  if Reqb min_dist dist_left || Reqb min_dist dist_right
  then Vector2D.mk 0 1
  else Vector2D.mk 1 0.

Definition get_normal_at_point (self : t) (position : Vector2D.t) : Vector2D.t :=
  let dist_left := Rabs (Vector2D.x position - min_x self) in
  let dist_right := Rabs (Vector2D.x position - max_x self) in
  let dist_bottom := Rabs (Vector2D.y position - min_y self) in
  let min_dist := min_dist self position in
  if Reqb min_dist dist_left then Vector2D.mk 1 0
  else if Reqb min_dist dist_right then Vector2D.mk (-1) 0
  else if Reqb min_dist dist_bottom then Vector2D.mk 0 1
  else Vector2D.mk 0 (-1).

Definition clamp_position (self : t) (position : Vector2D.t) : Vector2D.t :=
  let clamped_x := py_max (min_x self) (py_min (Vector2D.x position) (max_x self)) in
  let clamped_y := py_max (min_y self) (py_min (Vector2D.y position) (max_y self)) in
  Vector2D.mk clamped_x clamped_y.

End Boundary.

(** ** agent.py *)

(** What the [velocity] attribute of an agent holds: a [Vector2D], or the
    plain integer that [energy_update] stores when the agent stops. *)
Inductive pyvalue : Type :=
| PVec (v : Vector2D.t)
| PInt (n : Z).

(** Reading a [Vector2D] attribute or method of the value. *)
Definition as_vector (o : pyvalue) : result Vector2D.t :=
  match o with
  | PVec v => Ok v
  | PInt _ => Raise AttributeError
  end.

Module Agent.

Record t : Type := mk {
  position : Vector2D.t;
  velocity : pyvalue;
  energy : R;
  radius : R;
  nrg_decay : R;
  nrg_gain : R;
  is_moving : bool;
  movement_time : R;
  base_speed : R;
  max_energy : R
}.

Definition set_position (a : t) (p : Vector2D.t) : t :=
  mk p (velocity a) (energy a) (radius a) (nrg_decay a) (nrg_gain a)
     (is_moving a) (movement_time a) (base_speed a) (max_energy a).
Definition set_velocity (a : t) (v : pyvalue) : t :=
  mk (position a) v (energy a) (radius a) (nrg_decay a) (nrg_gain a)
     (is_moving a) (movement_time a) (base_speed a) (max_energy a).
Definition set_energy (a : t) (e : R) : t :=
  mk (position a) (velocity a) e (radius a) (nrg_decay a) (nrg_gain a)
     (is_moving a) (movement_time a) (base_speed a) (max_energy a).
Definition set_is_moving (a : t) (b : bool) : t :=
  mk (position a) (velocity a) (energy a) (radius a) (nrg_decay a) (nrg_gain a)
     b (movement_time a) (base_speed a) (max_energy a).
Definition set_movement_time (a : t) (m : R) : t :=
  mk (position a) (velocity a) (energy a) (radius a) (nrg_decay a) (nrg_gain a)
     (is_moving a) m (base_speed a) (max_energy a).

(** [Agent(position, velocity, energy, agent_radius, nrg_decay, nrg_gain)] *)
Definition new (position velocity : Vector2D.t)
    (energy agent_radius nrg_decay nrg_gain : R) : result t :=
  let* speed := Vector2D.magnitude velocity in
  Ok (mk (Vector2D.copy position) (PVec (Vector2D.copy velocity)) energy
         agent_radius nrg_decay nrg_gain true 0 speed energy).

Definition default_radius : R := 5.
Definition default_nrg_decay : R := 1 / 10.
Definition default_nrg_gain : R := 1 / 100.

Definition energy_update (self : t) (delta_time : R) (g : Rng) : result (t * Rng) :=
  if is_moving self then
    let self := set_energy self (energy self * exp (- nrg_decay self * delta_time)) in
    let* v := as_vector (velocity self) in
    let self := set_velocity self (PVec (Vector2D.mul v (energy self))) in
    let* v' := as_vector (velocity self) in
    let* mag := Vector2D.magnitude v' in
    if Rltb mag 1 then
      let self := set_velocity self (PInt 0) in
      Ok (set_is_moving self false, g)
    else Ok (self, g)
  else
    let self := set_energy self (energy self + nrg_gain self * max_energy self) in
    let self := set_energy self (py_min (energy self) (max_energy self)) in
    if Reqb (energy self) (max_energy self) then
      let (u, g) := uniform 0 1 g in
      if Rltb u (3 / 10) then
        let self := set_is_moving self true in
        let (angle, g) := uniform 0 (2 * PI) g in
        Ok (set_velocity self
              (PVec (Vector2D.mk (cos angle * base_speed self)
                                 (sin angle * base_speed self))), g)
      else Ok (self, g)
    else Ok (self, g).

Definition update (self : t) (delta_time std_dev : R) (g : Rng) : result (t * Rng) :=
  if is_moving self then
    let* (self, g) :=
      (if Rltb 0 std_dev then
         let* v := as_vector (velocity self) in
         let (random_vel, g) := Vector2D.add_randomness (Vector2D.copy v) std_dev g in
         Ok (set_position self
               (Vector2D.add (position self) (Vector2D.mul random_vel delta_time)), g)
       else
         let* v := as_vector (velocity self) in
         Ok (set_position self
               (Vector2D.add (position self) (Vector2D.mul v delta_time)), g)) in
    let self := set_movement_time self (movement_time self + delta_time) in
    energy_update self delta_time g
  else energy_update self delta_time g.

Definition can_move (self : t) : bool := is_moving self.

Definition detect_collision (self other_agent : t) (interaction_radius : R) : result bool :=
  let* distance := Vector2D.distance_to (position self) (position other_agent) in
  Ok (Rleb distance interaction_radius).

Definition interact_with_agent (self other_agent : t) : result t :=
  if negb (is_moving self) then Ok self
  else
    let direction := Vector2D.sub (position self) (position other_agent) in
    let* mag := Vector2D.magnitude direction in
    if Reqb mag 0 then Ok self
    else
      let* tangent := Vector2D.normalize (Vector2D.rotate direction (PI / 2)) in
      let* v := as_vector (velocity self) in
      let* speed := Vector2D.magnitude v in
      if Rltb 0 speed then Ok (set_velocity self (PVec (Vector2D.mul tangent speed)))
      else Ok self.

Definition interact_with_boundary (self : t) (boundary : Boundary.t) : result t :=
  if negb (is_moving self) then Ok self
  else
    let buffer := 15 in
    if Boundary.is_near_boundary boundary (position self) (radius self + buffer) then
      let tangent := Boundary.get_tangent_at_point boundary (position self) in
      let* v := as_vector (velocity self) in
      let tangent := if Rltb (Vector2D.dot v tangent) 0
                     then Vector2D.mul tangent (-1) else tangent in
      let* speed := Vector2D.magnitude v in
      let self := set_velocity self (PVec (Vector2D.mul tangent speed)) in
      let normal := Boundary.get_normal_at_point boundary (position self) in
      Ok (set_position self (Vector2D.add (position self) (Vector2D.mul normal 2)))
    else Ok self.

(** The speed an observer sees: the length of the velocity vector, and
    the absolute value of the number once the velocity is a plain number. *)
Definition speed (self : t) : R :=
  match velocity self with
  | PVec v => Vector2D.norm v
  | PInt n => Rabs (IZR n)
  end.

End Agent.

(** ** simulation.py *)

(** A [for] loop over [xs] whose body updates the loop state [s] and may raise. *)
Fixpoint for_each {A S : Type} (xs : list A) (body : A -> S -> result S) (s : S)
  : result S :=
  match xs with
  | [] => Ok s
  | a :: xs' => let* s' := body a s in for_each xs' body s'
  end.

(** [l[i]], raising [IndexError] out of range. *)
Definition getitem {A : Type} (l : list A) (i : nat) : result A :=
  match l !! i with
  | Some a => Ok a
  | None => Raise IndexError
  end.

Module Simulation.

Record t : Type := mk {
  boundary : Boundary.t;
  agents : list Agent.t;
  interaction_radius : R;
  time_step : R;
  random_std_dev : R;
  current_time : R
}.

Definition set_agents (s : t) (l : list Agent.t) : t :=
  mk (boundary s) l (interaction_radius s) (time_step s) (random_std_dev s)
     (current_time s).
Definition set_current_time (s : t) (c : R) : t :=
  mk (boundary s) (agents s) (interaction_radius s) (time_step s) (random_std_dev s) c.

Definition new (boundary_width boundary_height interaction_radius time_step
                random_std_dev : R) : t :=
  mk (Boundary.new boundary_width boundary_height) [] interaction_radius time_step
     random_std_dev 0.

(** One round of the loop of [initialize_agents]. *)
Definition initialize_agent (self : t) (energy_range speed_range : R * R)
    (st : list Agent.t * Rng) : result (list Agent.t * Rng) :=
  let (l, g) := st in
  let margin := 20 in
  let (pos_x, g) := uniform margin (Boundary.width (boundary self) - margin) g in
  let (pos_y, g) := uniform margin (Boundary.height (boundary self) - margin) g in
  let position := Vector2D.mk pos_x pos_y in
  let (angle, g) := uniform 0 (2 * PI) g in
  let (speed, g) := uniform (fst speed_range) (snd speed_range) g in
  let velocity := Vector2D.mk (cos angle * speed) (sin angle * speed) in
  let (energy, g) := uniform (fst energy_range) (snd energy_range) g in
  let* agent := Agent.new position velocity energy Agent.default_radius
                  Agent.default_nrg_decay Agent.default_nrg_gain in
  Ok (l ++ [agent], g).

Definition initialize_agents (self : t) (num_agents : nat)
    (energy_range speed_range : R * R) (g : Rng) : result (t * Rng) :=
  let* (l, g) := for_each (seq 0 num_agents)
                   (fun _ st => initialize_agent self energy_range speed_range st)
                   ([], g) in
  Ok (set_agents self l, g).

(** The body of the inner loop of [check_interactions]; the two agents are
    objects of the list, so what [interact_with_agent] changes on the
    first one is what the second one reads. *)
Definition interact_pair (radius : R) (i j : nat) (l : list Agent.t)
  : result (list Agent.t) :=
  let* agent1 := getitem l i in
  let* agent2 := getitem l j in
  if negb (Agent.can_move agent1) && negb (Agent.can_move agent2) then Ok l
  else
    let* near := Agent.detect_collision agent1 agent2 radius in
    if near then
      let* agent1 := (if Agent.can_move agent1
                      then Agent.interact_with_agent agent1 agent2
                      else Ok agent1) in
      let l := <[i := agent1]> l in
      let* agent2 := (if Agent.can_move agent2
                      then Agent.interact_with_agent agent2 agent1
                      else Ok agent2) in
      Ok (<[j := agent2]> l)
    else Ok l.

Definition check_interactions_from (radius : R) (i : nat) (l : list Agent.t)
  : result (list Agent.t) :=
  for_each (seq (i + 1) (length l - (i + 1))) (interact_pair radius i) l.

Definition check_interactions (self : t) : result t :=
  let* l := for_each (seq 0 (length (agents self)))
              (check_interactions_from (interaction_radius self)) (agents self) in
  Ok (set_agents self l).

Fixpoint boundary_loop (b : Boundary.t) (l : list Agent.t) : result (list Agent.t) :=
  match l with
  | [] => Ok []
  | agent :: l' =>
      let* agent := (if Agent.can_move agent
                     then Agent.interact_with_boundary agent b
                     else Ok agent) in
      let* l' := boundary_loop b l' in
      Ok (agent :: l')
  end.

Definition check_boundary_collisions (self : t) : result t :=
  let* l := boundary_loop (boundary self) (agents self) in
  Ok (set_agents self l).

(** The first loop of [update]. *)
Fixpoint update_loop (delta_time std_dev : R) (l : list Agent.t) (g : Rng)
  : result (list Agent.t * Rng) :=
  match l with
  | [] => Ok ([], g)
  | agent :: l' =>
      let* (agent, g) := (if Agent.can_move agent
                          then Agent.update agent delta_time std_dev g
                          else Ok (agent, g)) in
      let* (l', g) := update_loop delta_time std_dev l' g in
      Ok (agent :: l', g)
  end.

Definition update (self : t) (g : Rng) : result (t * Rng) :=
  let* (l, g) := update_loop (time_step self) (random_std_dev self) (agents self) g in
  let self := set_agents self l in
  let* self := check_interactions self in
  let* self := check_boundary_collisions self in
  Ok (set_current_time self (current_time self + time_step self), g).

(** The loop of [run]: [num_steps] calls of [update] (the progress lines
    and the final report print and change nothing). *)
Fixpoint steps (num_steps : nat) (self : t) (g : Rng) : result (t * Rng) :=
  match num_steps with
  | O => Ok (self, g)
  | S n => let* (self, g) := update self g in steps n self g
  end.

(** What [print_statistics] computes before printing it: the least, the
    greatest and the mean energy, then the same of the movement times. *)
Definition print_statistics (self : t) : result unit :=
  let energies := map Agent.energy (agents self) in
  let* _ := py_min_list energies in
  let* _ := py_max_list energies in
  let* _ := py_div (py_sum energies) (INR (length energies)) in
  let movement_times := map Agent.movement_time (agents self) in
  let* _ := py_min_list movement_times in
  let* _ := py_max_list movement_times in
  let* _ := py_div (py_sum movement_times) (INR (length movement_times)) in
  Ok tt.

(** [run(duration)].  The quotient [duration / time_step] is a float:
    [fl] is the rounding that the division applies to the exact quotient, and
    [int] truncates the rounded value.  [range(num_steps)] is empty for a
    negative [num_steps]; the lines printed are not kept. *)
Definition run (fl : R -> R) (self : t) (duration : R) (g : Rng) : result (t * Rng) :=
  let* ratio := py_div duration (time_step self) in
  let num_steps := py_int (fl ratio) in
  let* (self, g) := steps (Z.to_nat num_steps) self g in
  let* _ := print_statistics self in
  Ok (self, g).

Definition get_agent_positions (self : t) : list (R * R) :=
  map (fun agent => (Vector2D.x (Agent.position agent),
                     Vector2D.y (Agent.position agent))) (agents self).

(** One dictionary of [get_agent_states]. *)
Record state : Type := mkState {
  id : nat;
  st_position : R * R;
  st_velocity : R * R;
  st_energy : R;
  st_is_moving : bool;
  st_movement_time : R
}.

Definition agent_state (i : nat) (agent : Agent.t) : result state :=
  let* v := as_vector (Agent.velocity agent) in
  Ok (mkState i
        (Vector2D.x (Agent.position agent), Vector2D.y (Agent.position agent))
        (Vector2D.x v, Vector2D.y v)
        (Agent.energy agent) (Agent.is_moving agent) (Agent.movement_time agent)).

Fixpoint states_from (i : nat) (l : list Agent.t) : result (list state) :=
  match l with
  | [] => Ok []
  | agent :: l' =>
      let* s := agent_state i agent in
      let* states := states_from (S i) l' in
      Ok (s :: states)
  end.

Definition get_agent_states (self : t) : result (list state) :=
  states_from 0 (agents self).

End Simulation.

(** ** Quantities of the statements, and sample data *)

(** The energy of a moving agent after one decay step of [energy_update]. *)
Definition decayed (a : Agent.t) (dt : R) : R :=
  Agent.energy a * exp (- Agent.nrg_decay a * dt).

(** The factor by which one decay step multiplies the energy. *)
Definition decay_factor (d dt : R) : R := exp (- d * dt).

(** A random source whose every variate is [u]. *)
Definition constant_rng (u : R) : Rng := mkRng (fun _ => u) 0.

(** An agent at the origin with velocity [(3,4)], energy 1 and the default
    radius and rates. *)
Definition origin_agent (moving : bool) : Agent.t :=
  Agent.mk (Vector2D.mk 0 0) (PVec (Vector2D.mk 3 4)) 1 5 (1 / 10) (1 / 100)
    moving 0 5 1.

(** A slow agent: its speed [1/2] is already below the threshold 1. *)
Definition slow_agent : Agent.t :=
  Agent.mk (Vector2D.mk 0 0) (PVec (Vector2D.mk 0 (1 / 2))) 1 5 (1 / 10) (1 / 100)
    true 0 (1 / 2) 1.

(** A simulation over a 100 by 100 boundary holding the agents [l]. *)
Definition sample_simulation (l : list Agent.t) : Simulation.t :=
  Simulation.mk (Boundary.new 100 100) l 50 (1 / 10) 0 0.

(** The invariant of an agent: the energy lies between 0 and [max_energy],
    the two rates are not negative, and a moving agent holds a vector as
    its velocity. *)
Definition agent_inv (a : Agent.t) : Prop :=
  (0 <= Agent.energy a <= Agent.max_energy a) /\
  (0 <= Agent.nrg_decay a /\ 0 <= Agent.nrg_gain a) /\
  (Agent.is_moving a = true -> exists v, Agent.velocity a = PVec v).

(** What a call may do to an agent of the list: the result satisfies the
    invariant, and an agent that was resting is returned as it was. *)
Definition keeps_resting (a a' : Agent.t) : Prop :=
  agent_inv a' /\ (Agent.is_moving a = false -> a' = a).

(** A resting agent below its [max_energy]. *)
Definition tired_agent : Agent.t :=
  Agent.mk (Vector2D.mk 50 50) (PInt 0) (1 / 2) 5 (1 / 10) (1 / 100) false 3 5 1.

(** [n] calls of [Agent.update] in a row, with the same [delta_time] and
    [std_dev]. *)
Fixpoint updates (n : nat) (a : Agent.t) (dt std : R) (g : Rng)
  : result (Agent.t * Rng) :=
  match n with
  | O => Ok (a, g)
  | S k => let* (a', g') := Agent.update a dt std g in updates k a' dt std g'
  end.

(** The run of a moving agent to its first rest: [n] updates leave it
    resting, fewer leave it moving, and if the energy starts within
    [[-1, 1]] the speed does not grow from one update to the next. *)
Definition rests_at (dt : R) (g : Rng) (n : nat) (a : Agent.t) : Prop :=
  (exists a', updates n a dt 0 g = Ok (a', g) /\ Agent.is_moving a' = false) /\
  (forall k : nat, (k < n)%nat ->
     exists ak, updates k a dt 0 g = Ok (ak, g) /\ Agent.is_moving ak = true) /\
  (Rabs (Agent.energy a) <= 1 ->
   forall k : nat, (k < n)%nat ->
     exists ak ak1, updates k a dt 0 g = Ok (ak, g) /\
                    updates (S k) a dt 0 g = Ok (ak1, g) /\
                    Agent.speed ak1 <= Agent.speed ak).

(** A moving agent whose energy 2 is above 1. *)
Definition eager_agent : Agent.t :=
  Agent.mk (Vector2D.mk 0 0) (PVec (Vector2D.mk 3 4)) 2 5 (1 / 10) (1 / 100)
    true 0 5 2.

(** What a simulation step may do to an agent: the result satisfies the
    invariant, has the same [max_energy], and no more energy. *)
Definition spends_energy (a a' : Agent.t) : Prop :=
  agent_inv a' /\ Agent.max_energy a' = Agent.max_energy a /\
  Agent.energy a' <= Agent.energy a.

(** What the agent-agent pass may do to an agent: only the velocity
    changes, and its length does not. *)
Definition redirected (a a' : Agent.t) : Prop :=
  agent_inv a' /\ a' = Agent.set_velocity a (Agent.velocity a') /\
  Agent.speed a' = Agent.speed a.

(** What the boundary pass may do to an agent: speed, energy and movement
    state stay, and the position stays or moves by a distance of 2. *)
Definition deflected (a a' : Agent.t) : Prop :=
  agent_inv a' /\ Agent.speed a' = Agent.speed a /\
  Agent.energy a' = Agent.energy a /\ Agent.is_moving a' = Agent.is_moving a /\
  (Agent.position a' = Agent.position a \/
   Vector2D.norm (Vector2D.sub (Agent.position a') (Agent.position a)) = 2).

(** What [initialize_agents] promises of each agent it creates in a
    [w] by [h] boundary, from an energy range [er] and a speed range [sr]. *)
Definition initial_agent_ok (w h : R) (er sr : R * R) (a : Agent.t) : Prop :=
  agent_inv a /\ Agent.is_moving a = true /\
  Agent.energy a = Agent.max_energy a /\
  fst er <= Agent.energy a <= snd er /\
  fst sr <= Agent.base_speed a <= snd sr /\
  Agent.speed a = Agent.base_speed a /\
  (20 <= Vector2D.x (Agent.position a) <= w - 20 /\
   20 <= Vector2D.y (Agent.position a) <= h - 20) /\
  Agent.movement_time a = 0 /\
  Agent.radius a = 5 /\ Agent.nrg_decay a = 1 / 10 /\ Agent.nrg_gain a = 1 / 100.

(** The agent that [Agent(Vector2D(0,0), Vector2D(3,4), -1)] builds: a
    negative energy. *)
Definition contrary_agent : Agent.t :=
  Agent.mk (Vector2D.mk 0 0) (PVec (Vector2D.mk 3 4)) (-1) 5 (1 / 10) (1 / 100)
    true 0 5 (-1).

(** As [spends_energy]; moreover an agent whose [max_energy] is at most 1
    gets no faster. *)
Definition slows_down (a a' : Agent.t) : Prop :=
  spends_energy a a' /\
  (Agent.max_energy a <= 1 -> Agent.speed a' <= Agent.speed a).

(** ** Basic facts on the primitives *)

Lemma Rltb_true (a b : R) : a < b -> Rltb a b = true.
Proof. intros H. unfold Rltb. destruct (Rlt_dec a b); [reflexivity | contradiction]. Qed.

Lemma Rltb_false (a b : R) : b <= a -> Rltb a b = false.
Proof. intros H. unfold Rltb. destruct (Rlt_dec a b); [lra | reflexivity]. Qed.

Lemma Rleb_true (a b : R) : a <= b -> Rleb a b = true.
Proof. intros H. unfold Rleb. destruct (Rle_dec a b); [reflexivity | contradiction]. Qed.

Lemma Rleb_false (a b : R) : b < a -> Rleb a b = false.
Proof. intros H. unfold Rleb. destruct (Rle_dec a b); [lra | reflexivity]. Qed.

Lemma Reqb_true (a b : R) : a = b -> Reqb a b = true.
Proof. intros H. unfold Reqb. destruct (Req_dec_T a b); [reflexivity | contradiction]. Qed.

Lemma Reqb_false (a b : R) : a <> b -> Reqb a b = false.
Proof. intros H. unfold Reqb. destruct (Req_dec_T a b); [contradiction | reflexivity]. Qed.

Lemma py_div_ok (a b : R) : b <> 0 -> py_div a b = Ok (a / b).
Proof. intros H. unfold py_div. now rewrite Reqb_false. Qed.

Lemma py_div_zero (a : R) : py_div a 0 = Raise ZeroDivisionError.
Proof. unfold py_div. now rewrite Reqb_true. Qed.

Lemma math_sqrt_ok (a : R) : 0 <= a -> math_sqrt a = Ok (sqrt a).
Proof. intros H. unfold math_sqrt. now rewrite Rltb_false. Qed.

Lemma py_min_Rmin (a b : R) : py_min a b = Rmin a b.
Proof.
  unfold py_min, Rltb, Rmin.
  destruct (Rlt_dec b a), (Rle_dec a b); lra.
Qed.

Lemma sum_sqr_nonneg (a b : R) : 0 <= a ^ 2 + b ^ 2.
Proof. nra. Qed.

Lemma sum_sqr_zero (a b : R) : a ^ 2 + b ^ 2 = 0 -> a = 0 /\ b = 0.
Proof. intros H. split; nra. Qed.

Module Vector2DFacts.
Import Vector2D.

Lemma magnitude_ok (v : t) : magnitude v = Ok (norm v).
Proof. unfold magnitude, norm. apply math_sqrt_ok, sum_sqr_nonneg. Qed.

Lemma norm_nonneg (v : t) : 0 <= norm v.
Proof. apply sqrt_pos. Qed.

Lemma norm_zero_iff (v : t) : norm v = 0 <-> v = zero.
Proof.
  unfold norm, zero. split.
  - intros H. apply sqrt_eq_0 in H; [| apply sum_sqr_nonneg].
    apply sum_sqr_zero in H. destruct v as [a b]; simpl in *.
    destruct H as [-> ->]. reflexivity.
  - intros ->. cbn [x y]. replace (0 ^ 2 + 0 ^ 2) with 0 by ring. apply sqrt_0.
Qed.

Lemma norm_sqr (v : t) : norm v * norm v = x v ^ 2 + y v ^ 2.
Proof. unfold norm. apply sqrt_sqrt, sum_sqr_nonneg. Qed.

Lemma norm_mul (v : t) (s : R) : norm (mul v s) = norm v * Rabs s.
Proof.
  unfold norm, mul. cbn [x y].
  replace ((x v * s) ^ 2 + (y v * s) ^ 2) with ((x v ^ 2 + y v ^ 2) * (s ^ 2)) by ring.
  rewrite sqrt_mult; [| apply sum_sqr_nonneg | nra].
  f_equal. replace (s ^ 2) with (Rsqr s) by (unfold Rsqr; ring).
  apply sqrt_Rsqr_abs.
Qed.

Lemma normalize_nonzero (v : t) :
  v <> zero -> normalize v = Ok (mk (x v / norm v) (y v / norm v)).
Proof.
  intros H. unfold normalize. rewrite magnitude_ok. simpl.
  assert (Hn : norm v <> 0) by (intros E; apply H, norm_zero_iff, E).
  rewrite Reqb_false by exact Hn.
  rewrite !py_div_ok by exact Hn. reflexivity.
Qed.

Lemma normalize_zero : normalize zero = Ok zero.
Proof.
  unfold normalize. rewrite magnitude_ok. simpl.
  rewrite Reqb_true; [reflexivity |]. now apply norm_zero_iff.
Qed.

Lemma norm_unit_of_normalize (v : t) :
  v <> zero -> norm (mk (x v / norm v) (y v / norm v)) = 1.
Proof.
  intros H.
  assert (Hn : norm v <> 0) by (intros E; apply H, norm_zero_iff, E).
  unfold norm at 1. cbn [x y].
  replace ((x v / norm v) ^ 2 + (y v / norm v) ^ 2)
    with ((x v ^ 2 + y v ^ 2) / (norm v * norm v)) by (field; exact Hn).
  rewrite norm_sqr.
  replace ((x v ^ 2 + y v ^ 2) / (x v ^ 2 + y v ^ 2)) with 1.
  - apply sqrt_1.
  - field. rewrite <- norm_sqr. nra.
Qed.

End Vector2DFacts.

(** ** Properties of the vector operations *)

Section VectorClaims.
Import Vector2D Vector2DFacts.

Lemma zero_or_not (v : t) : v = zero \/ v <> zero.
Proof.
  destruct (Req_dec (norm v) 0) as [E | E].
  - left. apply norm_zero_iff, E.
  - right. intros H. apply E, norm_zero_iff, H.
Qed.

Lemma normalize_returns (v : t) : returns (normalize v).
Proof.
  destruct (zero_or_not v) as [-> | H].
  - exists zero. apply normalize_zero.
  - eexists. apply normalize_nonzero, H.
Qed.

Lemma normalize_nonzero_ne (v : t) :
  v <> zero -> mk (x v / norm v) (y v / norm v) <> zero.
Proof.
  intros H E.
  assert (Hn : norm v <> 0) by (intros E'; apply H, norm_zero_iff, E').
  apply H. unfold zero in E. injection E as Ex Ey.
  destruct v as [a b]; cbn [x y] in *. unfold zero. f_equal.
  - apply (Rmult_eq_compat_r (norm (mk a b))) in Ex. field_simplify in Ex; lra.
  - apply (Rmult_eq_compat_r (norm (mk a b))) in Ey. field_simplify in Ey; lra.
Qed.

(** C10: [normalize] returns the zero vector exactly on the zero vector,
    and on every other vector it returns a vector of magnitude 1. *)
Theorem normalize_zero_iff_and_unit (v : t) :
  (normalize v = Ok zero <-> v = zero) /\
  (v <> zero -> exists u, normalize v = Ok u /\ magnitude u = Ok 1).
Proof.
  split; [split |].
  - intros H. destruct (zero_or_not v) as [E | E]; [exact E |].
    rewrite (normalize_nonzero v E) in H.
    exfalso. apply (normalize_nonzero_ne v E). congruence.
  - intros ->. apply normalize_zero.
  - intros H. eexists. split; [apply normalize_nonzero, H |].
    rewrite magnitude_ok. f_equal. apply norm_unit_of_normalize, H.
Qed.

Lemma normalize_zero_iff_and_unit_witness :
  mk 3 4 <> zero /\ exists u, normalize (mk 3 4) = Ok u /\ magnitude u = Ok 1.
Proof.
  assert (H : mk 3 4 <> zero) by (intros E; injection E as E _; lra).
  split; [exact H |].
  exact (proj2 (normalize_zero_iff_and_unit (mk 3 4)) H).
Defined.

(** C5, as the claim has it, fails: dividing a vector by the float zero
    raises [ZeroDivisionError]. *)
Lemma truediv_by_zero_raises :
  truediv (mk 1 1) 0 = Raise ZeroDivisionError /\ ~ returns (truediv (mk 1 1) 0).
Proof.
  assert (E : truediv (mk 1 1) 0 = Raise ZeroDivisionError).
  { unfold truediv. rewrite py_div_zero. reflexivity. }
  split; [exact E |]. intros [u Hu]. rewrite E in Hu. discriminate.
Qed.

(** C5, amended: division by a scalar returns the componentwise quotient
    for every divisor but zero, where it raises [ZeroDivisionError];
    [normalize] and [rotate] send the zero vector to the zero vector.
    (Whether the other operations return on every vector is left open: on
    floats the squares in [magnitude] leave the float range for components
    beyond about [1e154].) *)
Theorem vector_operations_defined (v : t) (s a : R) :
  (s <> 0 -> truediv v s = Ok (mk (x v / s) (y v / s))) /\
  truediv v 0 = Raise ZeroDivisionError /\
  normalize zero = Ok zero /\
  rotate zero a = zero.
Proof.
  split; [| split; [| split]].
  - intros H. unfold truediv. rewrite !py_div_ok by exact H. reflexivity.
  - unfold truediv. rewrite py_div_zero. reflexivity.
  - apply normalize_zero.
  - unfold rotate, zero. cbn [x y]. f_equal; ring.
Qed.

Lemma vector_operations_defined_witness :
  truediv (mk 6 8) 2 = Ok (mk (6 / 2) (8 / 2)).
Proof.
  apply (proj1 (vector_operations_defined (mk 6 8) 2 0)). lra.
Defined.

End VectorClaims.

(** ** Properties of the boundary *)

Section BoundaryClaims.
Import Vector2D Vector2DFacts.

Lemma norm_axis (a b : R) : a ^ 2 + b ^ 2 = 1 -> norm (mk a b) = 1.
Proof. intros H. unfold norm. cbn [x y]. rewrite H. apply sqrt_1. Qed.

Lemma tangent_cases (b : Boundary.t) (p : t) :
  let d := Boundary.min_dist b p in
  (d = Rabs (x p - Boundary.min_x b) \/ d = Rabs (x p - Boundary.max_x b)) /\
    Boundary.get_tangent_at_point b p = mk 0 1
  \/ (d <> Rabs (x p - Boundary.min_x b) /\ d <> Rabs (x p - Boundary.max_x b)) /\
    Boundary.get_tangent_at_point b p = mk 1 0.
Proof.
  intros d. unfold Boundary.get_tangent_at_point. fold d. unfold Reqb.
  destruct (Req_dec_T d (Rabs (x p - Boundary.min_x b))) as [E1 | E1];
    destruct (Req_dec_T d (Rabs (x p - Boundary.max_x b))) as [E2 | E2];
    cbn [orb]; tauto.
Qed.

Lemma normal_cases (b : Boundary.t) (p : t) :
  let d := Boundary.min_dist b p in
  (d = Rabs (x p - Boundary.min_x b) /\ Boundary.get_normal_at_point b p = mk 1 0)
  \/ (d <> Rabs (x p - Boundary.min_x b) /\ d = Rabs (x p - Boundary.max_x b) /\
      Boundary.get_normal_at_point b p = mk (-1) 0)
  \/ (d <> Rabs (x p - Boundary.min_x b) /\ d <> Rabs (x p - Boundary.max_x b) /\
      (Boundary.get_normal_at_point b p = mk 0 1 \/
       Boundary.get_normal_at_point b p = mk 0 (-1))).
Proof.
  intros d. unfold Boundary.get_normal_at_point. fold d. unfold Reqb.
  destruct (Req_dec_T d (Rabs (x p - Boundary.min_x b))) as [E1 | E1];
    [left; tauto |].
  destruct (Req_dec_T d (Rabs (x p - Boundary.max_x b))) as [E2 | E2];
    [right; left; tauto |].
  right; right.
  destruct (Req_dec_T d (Rabs (y p - Boundary.min_y b))); tauto.
Qed.

(** C9: at every position of every boundary the tangent and the normal
    are unit vectors with dot product zero; and as soon as the least of the
    four wall distances is the left or the right one, also when it ties with
    the bottom or top one, the tangent is the vertical [(0,1)] and the
    normal is the horizontal [(1,0)] (left, which wins over right) or
    [(-1,0)]. *)
Theorem tangent_normal_perpendicular_units (b : Boundary.t) (p : t) :
  magnitude (Boundary.get_tangent_at_point b p) = Ok 1 /\
  magnitude (Boundary.get_normal_at_point b p) = Ok 1 /\
  dot (Boundary.get_tangent_at_point b p) (Boundary.get_normal_at_point b p) = 0 /\
  (Boundary.min_dist b p = Rabs (x p - Boundary.min_x b) ->
     Boundary.get_tangent_at_point b p = mk 0 1 /\
     Boundary.get_normal_at_point b p = mk 1 0) /\
  (Boundary.min_dist b p <> Rabs (x p - Boundary.min_x b) ->
   Boundary.min_dist b p = Rabs (x p - Boundary.max_x b) ->
     Boundary.get_tangent_at_point b p = mk 0 1 /\
     Boundary.get_normal_at_point b p = mk (-1) 0).
Proof.
  rewrite !magnitude_ok.
  destruct (tangent_cases b p) as [[Hd Ht] | [[Hd1 Hd2] Ht]];
    destruct (normal_cases b p) as [[Hn1 Hn] | [[Hn1 [Hn2 Hn]] | [Hn1 [Hn2 Hn]]]];
    try tauto; try (destruct Hd; tauto).
  - rewrite Ht, Hn. repeat split; try tauto.
    + f_equal. apply norm_axis. ring.
    + f_equal. apply norm_axis. ring.
    + unfold dot. cbn [x y]. ring.
  - rewrite Ht, Hn. repeat split; try tauto.
    + f_equal. apply norm_axis. ring.
    + f_equal. apply norm_axis. ring.
    + unfold dot. cbn [x y]. ring.
  - destruct Hn as [Hn | Hn]; rewrite Ht, Hn; repeat split; try tauto;
      try (f_equal; apply norm_axis; ring); unfold dot; cbn [x y]; ring.
Qed.

Lemma corner_min_dist : Boundary.min_dist (Boundary.new 100 100) (mk 5 5) = 5.
Proof.
  unfold Boundary.min_dist, Boundary.new. cbn [x y Boundary.min_x Boundary.max_x
    Boundary.min_y Boundary.max_y].
  rewrite (Rabs_pos_eq (5 - 0)) by lra. rewrite (Rabs_left (5 - 100)) by lra.
  rewrite !py_min_Rmin. rewrite (Rmin_left (5 - 0)) by lra.
  rewrite (Rmin_left (5 - 0) (5 - 0)) by lra. rewrite Rmin_left by lra. ring.
Qed.

Lemma tangent_normal_perpendicular_units_witness :
  Boundary.get_tangent_at_point (Boundary.new 100 100) (mk 5 5) = mk 0 1 /\
  Boundary.get_normal_at_point (Boundary.new 100 100) (mk 5 5) = mk 1 0.
Proof.
  apply (tangent_normal_perpendicular_units (Boundary.new 100 100) (mk 5 5)).
  rewrite corner_min_dist. cbn [x Boundary.new Boundary.min_x].
  replace (5 - 0) with 5 by ring. symmetry. apply Rabs_pos_eq. lra.
Defined.

End BoundaryClaims.

(** ** The boundary scenario *)

Section BoundaryScenario.
Import Vector2D Vector2DFacts.

Lemma left_wall_min_dist :
  Boundary.min_dist (Boundary.new 100 100) (mk 5 50) = Rabs (5 - 0).
Proof.
  unfold Boundary.min_dist, Boundary.new. cbn [x y Boundary.min_x Boundary.max_x
    Boundary.min_y Boundary.max_y].
  rewrite (Rabs_pos_eq (5 - 0)) by lra. rewrite (Rabs_left (5 - 100)) by lra.
  rewrite (Rabs_pos_eq (50 - 0)) by lra. rewrite (Rabs_left (50 - 100)) by lra.
  rewrite !py_min_Rmin. rewrite (Rmin_left (5 - 0)) by lra.
  rewrite (Rmin_left (5 - 0)) by lra. rewrite Rmin_left by lra. reflexivity.
Qed.

Lemma norm_10_0 : norm (mk (-10) 0) = 10.
Proof.
  unfold norm. cbn [x y]. replace ((-10) ^ 2 + 0 ^ 2) with (10 * 10) by ring.
  apply sqrt_square. lra.
Qed.

(** C8: in a 100 by 100 boundary, a moving agent of radius 5 at [(5,50)]
    with velocity [(-10,0)] is near the boundary for the threshold
    [radius + 15]; the tangent of the nearest (left) wall is [(0,1)]; the dot
    product of the velocity with it is 0, which is not below 0, so the
    tangent is not flipped; the speed is 10; the normal is [(1,0)]; and
    [interact_with_boundary] leaves the agent with velocity [(0,10)] at
    position [(7,50)], every other field as it was. *)
Theorem boundary_scenario (e d gn mt bs me : R) :
  let b := Boundary.new 100 100 in
  let a := Agent.mk (mk 5 50) (PVec (mk (-10) 0)) e 5 d gn true mt bs me in
  Boundary.is_near_boundary b (Agent.position a) (Agent.radius a + 15) = true /\
  Boundary.get_tangent_at_point b (Agent.position a) = mk 0 1 /\
  dot (mk (-10) 0) (mk 0 1) = 0 /\
  Rltb (dot (mk (-10) 0) (mk 0 1)) 0 = false /\
  magnitude (mk (-10) 0) = Ok 10 /\
  Boundary.get_normal_at_point b (Agent.position a) = mk 1 0 /\
  Agent.interact_with_boundary a b
    = Ok (Agent.mk (mk 7 50) (PVec (mk 0 10)) e 5 d gn true mt bs me).
Proof.
  intros b a.
  assert (Hnear : Boundary.is_near_boundary b (Agent.position a) (Agent.radius a + 15)
                  = true).
  { unfold Boundary.is_near_boundary, b, a, Boundary.new.
    cbn [x y Agent.position Agent.radius Boundary.min_x].
    rewrite (Rleb_true 5) by lra. reflexivity. }
  assert (Htan : Boundary.get_tangent_at_point b (Agent.position a) = mk 0 1).
  { unfold Boundary.get_tangent_at_point, b, a. cbn [Agent.position].
    rewrite left_wall_min_dist. cbn [x Boundary.new Boundary.min_x].
    rewrite Reqb_true by reflexivity. reflexivity. }
  assert (Hdot : dot (mk (-10) 0) (mk 0 1) = 0) by (unfold dot; cbn [x y]; ring).
  assert (Hmag : magnitude (mk (-10) 0) = Ok 10)
    by (rewrite magnitude_ok, norm_10_0; reflexivity).
  assert (Hnor : Boundary.get_normal_at_point b (Agent.position a) = mk 1 0).
  { unfold Boundary.get_normal_at_point, b, a. cbn [Agent.position].
    rewrite left_wall_min_dist. cbn [x Boundary.new Boundary.min_x].
    rewrite Reqb_true by reflexivity. reflexivity. }
  repeat split; try assumption.
  - rewrite Hdot. apply Rltb_false. lra.
  - unfold Agent.interact_with_boundary. rewrite Hnear.
    replace (Agent.is_moving a) with true by reflexivity. cbn [negb].
    rewrite Htan. replace (Agent.velocity a) with (PVec (mk (-10) 0)) by reflexivity.
    cbn [as_vector bind]. rewrite Hdot, (Rltb_false 0 0) by lra.
    rewrite Hmag. cbn [bind].
    unfold Agent.set_position, Agent.set_velocity. cbn [Agent.position Agent.velocity
      Agent.energy Agent.radius Agent.nrg_decay Agent.nrg_gain Agent.is_moving
      Agent.movement_time Agent.base_speed Agent.max_energy].
    fold (Agent.position a). rewrite Hnor. unfold a, add, mul. cbn.
    do 2 f_equal.
    + f_equal; ring.
    + do 2 f_equal; ring.
Qed.

End BoundaryScenario.

(** ** One call of an agent operation *)

Section AgentCalls.
Import Vector2D Vector2DFacts.

Lemma norm_sub_self (p : t) : norm (sub p p) = 0.
Proof.
  unfold norm, sub. cbn [x y].
  replace ((x p - x p) ^ 2 + (y p - y p) ^ 2) with 0 by ring. apply sqrt_0.
Qed.

Lemma detect_collision_coincident (a b : Agent.t) (r : R) :
  Agent.position a = Agent.position b -> 0 <= r ->
  Agent.detect_collision a b r = Ok true.
Proof.
  intros Hp Hr. unfold Agent.detect_collision, distance_to.
  rewrite magnitude_ok, Hp, norm_sub_self. cbn [bind].
  rewrite Rleb_true by exact Hr. reflexivity.
Qed.

Lemma interact_with_agent_coincident (a b : Agent.t) :
  Agent.position a = Agent.position b -> Agent.interact_with_agent a b = Ok a.
Proof.
  intros Hp. unfold Agent.interact_with_agent.
  destruct (Agent.is_moving a); cbn [negb]; [| reflexivity].
  rewrite magnitude_ok, Hp, norm_sub_self. cbn [bind].
  rewrite Reqb_true by reflexivity. reflexivity.
Qed.

Lemma interact_with_agent_resting (a b : Agent.t) :
  Agent.is_moving a = false -> Agent.interact_with_agent a b = Ok a.
Proof. intros H. unfold Agent.interact_with_agent. rewrite H. reflexivity. Qed.

Lemma interact_with_boundary_resting (a : Agent.t) (b : Boundary.t) :
  Agent.is_moving a = false -> Agent.interact_with_boundary a b = Ok a.
Proof. intros H. unfold Agent.interact_with_boundary. rewrite H. reflexivity. Qed.

(** C7: two agents at the same position collide for every nonnegative
    interaction radius, and [interact_with_agent] returns each of them
    unchanged; it also returns a resting caller unchanged, wherever the
    other agent is. *)
Theorem coincident_agents_noop (a b : Agent.t) (r : R) :
  (Agent.position a = Agent.position b -> 0 <= r ->
     Agent.detect_collision a b r = Ok true /\
     Agent.detect_collision b a r = Ok true /\
     Agent.interact_with_agent a b = Ok a /\
     Agent.interact_with_agent b a = Ok b) /\
  (Agent.is_moving a = false -> Agent.interact_with_agent a b = Ok a).
Proof.
  split.
  - intros Hp Hr. repeat split.
    + apply detect_collision_coincident; assumption.
    + apply detect_collision_coincident; [symmetry |]; assumption.
    + apply interact_with_agent_coincident, Hp.
    + apply interact_with_agent_coincident. symmetry. exact Hp.
  - apply interact_with_agent_resting.
Qed.

Lemma coincident_agents_noop_witness :
  (Agent.detect_collision (origin_agent true) (origin_agent true) 10 = Ok true /\
   Agent.detect_collision (origin_agent true) (origin_agent true) 10 = Ok true /\
   Agent.interact_with_agent (origin_agent true) (origin_agent true)
     = Ok (origin_agent true) /\
   Agent.interact_with_agent (origin_agent true) (origin_agent true)
     = Ok (origin_agent true)) /\
  Agent.interact_with_agent (origin_agent false) (origin_agent true)
    = Ok (origin_agent false).
Proof.
  split.
  - apply (proj1 (coincident_agents_noop (origin_agent true) (origin_agent true) 10)).
    + reflexivity.
    + lra.
  - apply (proj2 (coincident_agents_noop (origin_agent false) (origin_agent true) 10)).
    reflexivity.
Defined.

End AgentCalls.

(** ** The energy update *)

Section EnergyUpdate.
Import Vector2D Vector2DFacts.

Lemma energy_update_moving (a : Agent.t) (v : t) (dt : R) (g : Rng) :
  Agent.is_moving a = true -> Agent.velocity a = PVec v ->
  Agent.energy_update a dt g =
    if Rltb (norm (mul v (decayed a dt))) 1
    then Ok (Agent.set_is_moving
               (Agent.set_velocity (Agent.set_energy a (decayed a dt)) (PInt 0))
               false, g)
    else Ok (Agent.set_velocity (Agent.set_energy a (decayed a dt))
               (PVec (mul v (decayed a dt))), g).
Proof.
  intros Hm Hv. unfold Agent.energy_update. rewrite Hm.
  cbn [Agent.set_energy Agent.velocity Agent.energy]. rewrite Hv.
  cbn [as_vector bind Agent.set_velocity Agent.velocity Agent.energy].
  rewrite magnitude_ok. cbn [bind]. fold (decayed a dt).
  destruct (Rltb (norm (mul v (decayed a dt))) 1); reflexivity.
Qed.

Lemma normalize_mul_pos (v : t) (s : R) :
  0 < s -> normalize (mul v s) = normalize v.
Proof.
  intros Hs. destruct (zero_or_not v) as [-> | Hv].
  - replace (mul zero s) with zero; [reflexivity |].
    unfold mul, zero. cbn [x y]. f_equal; ring.
  - assert (Hn : norm v <> 0) by (intros E; apply Hv, norm_zero_iff, E).
    assert (Hv' : mul v s <> zero).
    { intros E. apply norm_zero_iff in E. rewrite norm_mul in E.
      rewrite Rabs_pos_eq in E by lra.
      apply Rmult_integral in E. destruct E; [contradiction | lra]. }
    rewrite (normalize_nonzero _ Hv'), (normalize_nonzero _ Hv).
    rewrite norm_mul, Rabs_pos_eq by lra. unfold mul. cbn [x y].
    do 2 f_equal; field; split; lra.
Qed.

Lemma normalize_mul_neg (v : t) (s : R) :
  s < 0 -> normalize (mul v s) = normalize (mk (- x v) (- y v)).
Proof.
  intros Hs.
  replace (mul v s) with (mul (mk (- x v) (- y v)) (- s))
    by (unfold mul; cbn [x y]; f_equal; ring).
  apply normalize_mul_pos. lra.
Qed.

(** C2, amended: one energy update of a moving agent multiplies the energy
    by [exp(-nrg_decay * delta_time)] and the velocity, componentwise, by the
    new energy.  The direction is kept when the new energy is positive; it is
    reversed when the new energy is negative, and the velocity is the zero
    vector when it is 0.  When the magnitude of the product is below 1 the
    agent is left resting with velocity 0, otherwise it is left moving with
    the product as its velocity.  Nothing else of the agent changes and no
    random number is drawn. *)
Theorem energy_update_moving_spec (a : Agent.t) (v : t) (dt : R) (g : Rng) :
  Agent.is_moving a = true -> Agent.velocity a = PVec v ->
  let e' := Agent.energy a * exp (- Agent.nrg_decay a * dt) in
  let v' := mk (x v * e') (y v * e') in
  (0 < e' -> normalize v' = normalize v) /\
  (e' < 0 -> normalize v' = normalize (mk (- x v) (- y v))) /\
  (e' = 0 -> v' = zero) /\
  (norm v' < 1 ->
     Agent.energy_update a dt g =
       Ok (Agent.mk (Agent.position a) (PInt 0) e' (Agent.radius a)
             (Agent.nrg_decay a) (Agent.nrg_gain a) false (Agent.movement_time a)
             (Agent.base_speed a) (Agent.max_energy a), g)) /\
  (1 <= norm v' ->
     Agent.energy_update a dt g =
       Ok (Agent.mk (Agent.position a) (PVec v') e' (Agent.radius a)
             (Agent.nrg_decay a) (Agent.nrg_gain a) true (Agent.movement_time a)
             (Agent.base_speed a) (Agent.max_energy a), g)).
Proof.
  intros Hm Hv e' v'.
  change v' with (mul v e'). change e' with (decayed a dt).
  split; [| split; [| split; [| split]]].
  - intros He. apply normalize_mul_pos, He.
  - intros He. apply normalize_mul_neg, He.
  - intros He. rewrite He. unfold mul, zero. f_equal; ring.
  - intros Hlt. rewrite (energy_update_moving a v dt g Hm Hv).
    rewrite Rltb_true by exact Hlt. reflexivity.
  - intros Hge. rewrite (energy_update_moving a v dt g Hm Hv).
    rewrite Rltb_false by exact Hge.
    unfold Agent.set_velocity, Agent.set_energy.
    cbn [Agent.position Agent.velocity Agent.energy Agent.radius Agent.nrg_decay
         Agent.nrg_gain Agent.is_moving Agent.movement_time Agent.base_speed
         Agent.max_energy].
    rewrite Hm. reflexivity.
Qed.

Lemma norm_3_4 : norm (mk 3 4) = 5.
Proof.
  unfold norm. cbn [x y]. replace (3 ^ 2 + 4 ^ 2) with (5 * 5) by ring.
  apply sqrt_square. lra.
Qed.

Lemma decayed_origin_agent (b : bool) :
  99 / 100 <= decayed (origin_agent b) (1 / 10) <= 1.
Proof.
  unfold decayed, origin_agent. cbn [Agent.energy Agent.nrg_decay].
  pose proof (exp_ineq1_le (- (1 / 10) * (1 / 10))) as Hlo.
  assert (Hup : exp (- (1 / 10) * (1 / 10)) < exp 0) by (apply exp_increasing; lra).
  rewrite exp_0 in Hup. lra.
Qed.

Lemma energy_update_moving_spec_witness :
  Agent.energy_update (origin_agent true) (1 / 10) (constant_rng 0) =
    Ok (Agent.mk (mk 0 0)
          (PVec (mk (3 * decayed (origin_agent true) (1 / 10))
                    (4 * decayed (origin_agent true) (1 / 10))))
          (decayed (origin_agent true) (1 / 10)) 5 (1 / 10) (1 / 100) true 0 5 1,
        constant_rng 0).
Proof.
  apply (proj2 (proj2 (proj2 (proj2
           (energy_update_moving_spec (origin_agent true) (mk 3 4) (1 / 10)
              (constant_rng 0) eq_refl eq_refl))))).
  change (1 <= norm (mul (mk 3 4) (decayed (origin_agent true) (1 / 10)))).
  rewrite norm_mul, norm_3_4.
  pose proof (decayed_origin_agent true) as H.
  rewrite Rabs_pos_eq by lra. lra.
Defined.

Lemma decayed_contrary_agent : -1 <= decayed contrary_agent (1 / 10) <= - (99 / 100).
Proof.
  unfold decayed, contrary_agent. cbn [Agent.energy Agent.nrg_decay].
  pose proof (exp_ineq1_le (- (1 / 10) * (1 / 10))) as Hlo.
  assert (Hup : exp (- (1 / 10) * (1 / 10)) < exp 0) by (apply exp_increasing; lra).
  rewrite exp_0 in Hup. lra.
Qed.

(** C2, as the claim has it, fails: the constructor takes any energy, and
    with a negative one the update does not keep the direction.  The agent
    built with energy [-1] and velocity [(3,4)] is still moving after one
    update, with both velocity components negative: the velocity points the
    opposite way. *)
Lemma negative_energy_reverses_velocity :
  Agent.new (mk 0 0) (mk 3 4) (-1) 5 (1 / 10) (1 / 100) = Ok contrary_agent /\
  exists a' v',
    Agent.energy_update contrary_agent (1 / 10) (constant_rng 0)
      = Ok (a', constant_rng 0) /\
    Agent.is_moving a' = true /\
    Agent.velocity a' = PVec v' /\
    x v' < 0 /\ y v' < 0 /\ dot v' (mk 3 4) < 0 /\
    normalize v' <> normalize (mk 3 4).
Proof.
  split.
  - unfold Agent.new. rewrite magnitude_ok, norm_3_4. reflexivity.
  - pose proof decayed_contrary_agent as Hd.
    rewrite (energy_update_moving contrary_agent (mk 3 4) (1 / 10) (constant_rng 0)
               eq_refl eq_refl).
    rewrite Rltb_false
      by (rewrite norm_mul, norm_3_4, Rabs_left by lra; lra).
    do 2 eexists. split; [reflexivity |]. split; [reflexivity |].
    split; [reflexivity |].
    unfold mul, dot. cbn [x y].
    split; [lra |]. split; [lra |]. split; [lra |].
    change (mk (3 * decayed contrary_agent (1 / 10)) (4 * decayed contrary_agent (1 / 10)))
      with (mul (mk 3 4) (decayed contrary_agent (1 / 10))).
    rewrite normalize_mul_neg by lra. cbn [x y].
    match goal with |- normalize ?w <> _ => set (u := w) end.
    assert (H34 : mk 3 4 <> zero) by (intros [= E _]; lra).
    assert (Hu : u <> zero) by (unfold u; intros [= E _]; lra).
    rewrite (normalize_nonzero _ H34), (normalize_nonzero _ Hu).
    rewrite norm_3_4. intros [= E _].
    assert (Hpos : 0 < norm u).
    { pose proof (norm_nonneg u) as Hnn.
      destruct (Req_dec (norm u) 0) as [Z | Z]; [| lra].
      apply norm_zero_iff in Z. contradiction. }
    assert (Hneg : x u / norm u < 0).
    { unfold Rdiv. apply Rmult_neg_pos; [unfold u; cbn [x]; lra |].
      apply Rinv_0_lt_compat, Hpos. }
    change (x u) with (- (3)) in Hneg. lra.
Qed.

End EnergyUpdate.

(** ** The velocity of a stopped agent *)

Section StoppedVelocity.
Import Vector2D Vector2DFacts.

Lemma states_from_scalar (l : list Agent.t) (i : nat) (a : Agent.t) (n : Z) :
  In a l -> Agent.velocity a = PInt n ->
  Simulation.states_from i l = Raise AttributeError.
Proof.
  revert i. induction l as [| b l IH]; intros i Hin Hv; [destruct Hin |].
  cbn [Simulation.states_from]. unfold Simulation.agent_state.
  destruct (Agent.velocity b) as [w | m] eqn:Hb; cbn [as_vector bind]; [| reflexivity].
  destruct Hin as [-> | Hin]; [congruence |].
  rewrite (IH (S i) Hin Hv). reflexivity.
Qed.

Lemma states_from_vectors (l : list Agent.t) (i : nat) :
  (forall b, In b l -> exists w, Agent.velocity b = PVec w) ->
  returns (Simulation.states_from i l).
Proof.
  revert i. induction l as [| b l IH]; intros i H.
  - eexists. reflexivity.
  - cbn [Simulation.states_from]. unfold Simulation.agent_state.
    destruct (H b (or_introl eq_refl)) as [w ->]. cbn [as_vector bind].
    destruct (IH (S i)) as [r ->]; [intros c Hc; apply H; right; exact Hc |].
    eexists. reflexivity.
Qed.

Lemma energy_update_resting_returns (a : Agent.t) (dt : R) (g : Rng) :
  Agent.is_moving a = false -> returns (Agent.energy_update a dt g).
Proof.
  intros H. unfold Agent.energy_update. rewrite H.
  destruct (Reqb _ _); [| eexists; reflexivity].
  destruct (uniform 0 1 g) as [u g1].
  destruct (Rltb u (3 / 10)); [| eexists; reflexivity].
  destruct (uniform 0 (2 * PI) g1) as [angle g2]. eexists. reflexivity.
Qed.

Lemma update_resting (a : Agent.t) (dt std : R) (g : Rng) :
  Agent.is_moving a = false -> Agent.update a dt std g = Agent.energy_update a dt g.
Proof. intros H. unfold Agent.update. rewrite H. reflexivity. Qed.

(** C6: when the magnitude threshold stops a moving agent, its velocity
    becomes the plain integer 0, not a vector.  From then on
    [get_agent_states] raises [AttributeError] on every simulation whose
    list holds that agent (it returns when every velocity is a vector),
    while the agent's own operations do not read the velocity:
    [update] and [energy_update] return, [interact_with_agent] and
    [interact_with_boundary] return the agent as it is, and
    [detect_collision] returns. *)
Theorem stopped_velocity_is_scalar (a : Agent.t) (v : t) (dt : R) (g : Rng) :
  Agent.is_moving a = true -> Agent.velocity a = PVec v ->
  norm (mul v (decayed a dt)) < 1 ->
  exists a',
    Agent.energy_update a dt g = Ok (a', g) /\
    Agent.velocity a' = PInt 0 /\
    Agent.is_moving a' = false /\
    (forall sim, In a' (Simulation.agents sim) ->
       Simulation.get_agent_states sim = Raise AttributeError) /\
    (forall sim, (forall b, In b (Simulation.agents sim) ->
                    exists w, Agent.velocity b = PVec w) ->
       returns (Simulation.get_agent_states sim)) /\
    (forall other bd dt' std g' r,
       returns (Agent.update a' dt' std g') /\
       returns (Agent.energy_update a' dt' g') /\
       Agent.interact_with_agent a' other = Ok a' /\
       Agent.interact_with_boundary a' bd = Ok a' /\
       returns (Agent.detect_collision a' other r) /\
       returns (Agent.detect_collision other a' r) /\
       Agent.can_move a' = false).
Proof.
  intros Hm Hv Hlt.
  eexists. split.
  { rewrite (energy_update_moving a v dt g Hm Hv), Rltb_true by exact Hlt.
    reflexivity. }
  split; [reflexivity |]. split; [reflexivity |]. split; [| split].
  - intros sim Hin. unfold Simulation.get_agent_states.
    eapply states_from_scalar; [exact Hin | reflexivity].
  - intros sim H. apply states_from_vectors, H.
  - intros other bd dt' std g' r.
    refine (conj _ (conj _ (conj _ (conj _ (conj _ (conj _ eq_refl)))))).
    + rewrite update_resting by reflexivity.
      apply energy_update_resting_returns. reflexivity.
    + apply energy_update_resting_returns. reflexivity.
    + apply interact_with_agent_resting. reflexivity.
    + apply interact_with_boundary_resting. reflexivity.
    + unfold Agent.detect_collision, distance_to. rewrite magnitude_ok.
      eexists. reflexivity.
    + unfold Agent.detect_collision, distance_to. rewrite magnitude_ok.
      eexists. reflexivity.
Qed.

Lemma norm_slow : norm (mk 0 (1 / 2)) = 1 / 2.
Proof.
  unfold norm. cbn [x y]. replace (0 ^ 2 + (1 / 2) ^ 2) with ((1 / 2) * (1 / 2)) by field.
  apply sqrt_square. lra.
Qed.

Lemma decayed_slow_agent : 0 < decayed slow_agent (1 / 10) < 1.
Proof.
  unfold decayed, slow_agent. cbn [Agent.energy Agent.nrg_decay].
  pose proof (exp_pos (- (1 / 10) * (1 / 10))) as Hlo.
  assert (Hup : exp (- (1 / 10) * (1 / 10)) < exp 0) by (apply exp_increasing; lra).
  rewrite exp_0 in Hup. lra.
Qed.

Lemma stopped_velocity_is_scalar_witness :
  exists a',
    Agent.energy_update slow_agent (1 / 10) (constant_rng 0) = Ok (a', constant_rng 0) /\
    Agent.velocity a' = PInt 0 /\
    Simulation.get_agent_states (sample_simulation [origin_agent true; a'])
      = Raise AttributeError.
Proof.
  assert (H : norm (mul (mk 0 (1 / 2)) (decayed slow_agent (1 / 10))) < 1).
  { rewrite norm_mul, norm_slow. pose proof decayed_slow_agent as Hd.
    rewrite Rabs_pos_eq by lra. nra. }
  destruct (stopped_velocity_is_scalar slow_agent (mk 0 (1 / 2)) (1 / 10)
              (constant_rng 0) eq_refl eq_refl H)
    as [a' [Hu [Hv [_ [Hs _]]]]].
  exists a'. split; [exact Hu |]. split; [exact Hv |].
  apply Hs. right. left. reflexivity.
Defined.

End StoppedVelocity.

(** ** The energy invariant *)

Ltac inv_fields := unfold agent_inv; cbn; split; [lra | split; [lra |]].

Section EnergyInvariant.
Import Vector2D Vector2DFacts.

Lemma exp_decay_le_1 (d dt : R) : 0 <= d -> 0 <= dt -> 0 < exp (- d * dt) <= 1.
Proof.
  intros Hd Hdt. split; [apply exp_pos |].
  destruct (Req_dec (- d * dt) 0) as [E | E].
  - rewrite E, exp_0. lra.
  - assert (H : exp (- d * dt) < exp 0) by (apply exp_increasing; nra).
    rewrite exp_0 in H. lra.
Qed.

Lemma decayed_bounds (a : Agent.t) (dt : R) :
  agent_inv a -> 0 <= dt -> 0 <= decayed a dt <= Agent.energy a.
Proof.
  intros [He [[Hd _] _]] Hdt. unfold decayed.
  pose proof (exp_decay_le_1 _ _ Hd Hdt) as Hq. nra.
Qed.

Lemma energy_update_inv (a : Agent.t) (dt : R) (g : Rng) :
  agent_inv a -> 0 <= dt ->
  exists a' g', Agent.energy_update a dt g = Ok (a', g') /\ agent_inv a' /\
                (Agent.is_moving a = false ->
                 Agent.energy a <= Agent.energy a' <= Agent.max_energy a).
Proof.
  intros Hinv Hdt. pose proof Hinv as [He [[Hd Hg] Hw]].
  destruct (Agent.is_moving a) eqn:Hm.
  - destruct (Hw eq_refl) as [v Hv].
    pose proof (decayed_bounds a dt Hinv Hdt) as Hb.
    rewrite (energy_update_moving a v dt g Hm Hv).
    destruct (Rltb (norm (mul v (decayed a dt))) 1); do 2 eexists;
      (split; [reflexivity |]); (split; [| discriminate]).
    + inv_fields. discriminate.
    + inv_fields. intros _. eexists. reflexivity.
  - unfold Agent.energy_update. rewrite Hm.
    cbn [Agent.set_energy Agent.energy Agent.nrg_gain Agent.max_energy].
    set (e2 := py_min (Agent.energy a + Agent.nrg_gain a * Agent.max_energy a)
                 (Agent.max_energy a)).
    assert (Hb : Agent.energy a <= e2 <= Agent.max_energy a).
    { unfold e2. rewrite py_min_Rmin. unfold Rmin. destruct (Rle_dec _ _); nra. }
    destruct (Reqb e2 (Agent.max_energy a)).
    + destruct (uniform 0 1 g) as [u g1]. destruct (Rltb u (3 / 10)).
      * destruct (uniform 0 (2 * PI) g1) as [angle g2]. do 2 eexists.
        split; [reflexivity |]. split; [| intros _; cbn; lra].
        inv_fields. intros _. eexists. reflexivity.
      * do 2 eexists. split; [reflexivity |]. split; [| intros _; cbn; lra].
        inv_fields. rewrite Hm. discriminate.
    + do 2 eexists. split; [reflexivity |]. split; [| intros _; cbn; lra].
      inv_fields. rewrite Hm. discriminate.
Qed.

Lemma agent_inv_set_position (a : Agent.t) (p : t) :
  agent_inv a -> agent_inv (Agent.set_position a p).
Proof. intros H. exact H. Qed.

Lemma agent_inv_set_movement_time (a : Agent.t) (m : R) :
  agent_inv a -> agent_inv (Agent.set_movement_time a m).
Proof. intros H. exact H. Qed.

Lemma agent_inv_set_vector (a : Agent.t) (v : t) :
  agent_inv a -> agent_inv (Agent.set_velocity a (PVec v)).
Proof.
  intros [He [Hr _]]. inv_fields. intros _. eexists. reflexivity.
Qed.

Lemma update_inv (a : Agent.t) (dt std : R) (g : Rng) :
  agent_inv a -> 0 <= dt ->
  exists a' g', Agent.update a dt std g = Ok (a', g') /\ agent_inv a'.
Proof.
  intros Hinv Hdt. unfold Agent.update.
  destruct (Agent.is_moving a) eqn:Hm.
  - destruct Hinv as [He [Hr Hw]]. destruct (Hw Hm) as [v Hv]. rewrite Hv.
    cbn [as_vector bind].
    destruct (Rltb 0 std).
    + destruct (add_randomness (copy v) std g) as [rv g1]. cbn [bind].
      edestruct energy_update_inv as [a' [g' [E [Hi _]]]]; [| exact Hdt |].
      2: { exists a', g'. split; [exact E | exact Hi]. }
      apply agent_inv_set_movement_time, agent_inv_set_position.
      repeat split; tauto.
    + cbn [bind].
      edestruct energy_update_inv as [a' [g' [E [Hi _]]]]; [| exact Hdt |].
      2: { exists a', g'. split; [exact E | exact Hi]. }
      apply agent_inv_set_movement_time, agent_inv_set_position.
      repeat split; tauto.
  - destruct (energy_update_inv a dt g Hinv Hdt) as [a' [g' [E [Hi _]]]].
    exists a', g'. tauto.
Qed.

Lemma interact_with_agent_inv (a b : Agent.t) :
  agent_inv a -> exists a', Agent.interact_with_agent a b = Ok a' /\ agent_inv a'.
Proof.
  intros Hinv. unfold Agent.interact_with_agent.
  destruct (Agent.is_moving a) eqn:Hm; cbn [negb]; [| exists a; tauto].
  rewrite magnitude_ok. cbn [bind].
  destruct (Reqb _ 0); [exists a; tauto |].
  destruct (normalize_returns (rotate (sub (Agent.position a) (Agent.position b)) (PI / 2)))
    as [tg ->].
  cbn [bind]. pose proof Hinv as [_ [_ Hw]]. destruct (Hw Hm) as [v ->].
  cbn [as_vector bind]. rewrite magnitude_ok. cbn [bind].
  destruct (Rltb 0 (norm v)); [| exists a; tauto].
  eexists. split; [reflexivity |]. apply agent_inv_set_vector, Hinv.
Qed.

Lemma interact_with_boundary_inv (a : Agent.t) (bd : Boundary.t) :
  agent_inv a -> exists a', Agent.interact_with_boundary a bd = Ok a' /\ agent_inv a'.
Proof.
  intros Hinv. unfold Agent.interact_with_boundary.
  destruct (Agent.is_moving a) eqn:Hm; cbn [negb]; [| exists a; tauto].
  destruct (Boundary.is_near_boundary _ _ _); [| exists a; tauto].
  pose proof Hinv as [_ [_ Hw]]. destruct (Hw Hm) as [v ->].
  cbn [as_vector bind]. rewrite magnitude_ok. cbn [bind].
  eexists. split; [reflexivity |].
  apply agent_inv_set_position, agent_inv_set_vector, Hinv.
Qed.

Lemma new_inv (p v : t) (e r d gn : R) :
  0 <= e -> 0 <= d -> 0 <= gn ->
  exists a, Agent.new p v e r d gn = Ok a /\ agent_inv a /\
            Agent.max_energy a = e /\ Agent.energy a = e /\ Agent.is_moving a = true.
Proof.
  intros He Hd Hg. unfold Agent.new. rewrite magnitude_ok. cbn [bind].
  eexists. split; [reflexivity |]. split; [| cbn; tauto].
  inv_fields. intros _. eexists. reflexivity.
Qed.

End EnergyInvariant.

Section MaxEnergy.
Import Vector2D Vector2DFacts.

Ltac ok_inv H := injection H as <- <-; reflexivity.

Lemma energy_update_max_energy (a a' : Agent.t) (dt : R) (g g' : Rng) :
  Agent.energy_update a dt g = Ok (a', g') -> Agent.max_energy a' = Agent.max_energy a.
Proof.
  unfold Agent.energy_update. destruct (Agent.is_moving a).
  - cbn [Agent.set_energy Agent.velocity Agent.energy].
    destruct (Agent.velocity a) as [v | n]; cbn [as_vector bind]; [| discriminate].
    cbn [Agent.set_velocity Agent.velocity as_vector bind]. rewrite magnitude_ok.
    cbn [bind]. destruct (Rltb _ 1); intros H; ok_inv H.
  - destruct (Reqb _ _); [| intros H; ok_inv H].
    destruct (uniform 0 1 g) as [u g1].
    destruct (Rltb u (3 / 10)); [| intros H; ok_inv H].
    destruct (uniform 0 (2 * PI) g1) as [angle g2]. intros H; ok_inv H.
Qed.

Lemma update_max_energy (a a' : Agent.t) (dt std : R) (g g' : Rng) :
  Agent.update a dt std g = Ok (a', g') -> Agent.max_energy a' = Agent.max_energy a.
Proof.
  unfold Agent.update. destruct (Agent.is_moving a); [| apply energy_update_max_energy].
  destruct (Agent.velocity a) as [v | n]; cbn [as_vector bind].
  - destruct (Rltb 0 std).
    + destruct (add_randomness (copy v) std g) as [rv g1]. cbn [bind].
      intros H. apply energy_update_max_energy in H. exact H.
    + cbn [bind]. intros H. apply energy_update_max_energy in H. exact H.
  - destruct (Rltb 0 std); discriminate.
Qed.

Lemma interact_with_agent_max_energy (a b a' : Agent.t) :
  Agent.interact_with_agent a b = Ok a' ->
  Agent.max_energy a' = Agent.max_energy a /\ Agent.energy a' = Agent.energy a.
Proof.
  unfold Agent.interact_with_agent.
  destruct (Agent.is_moving a); cbn [negb]; [| intros [= <-]; tauto].
  rewrite magnitude_ok. cbn [bind]. destruct (Reqb _ 0); [intros [= <-]; tauto |].
  destruct (normalize _) as [tg | e]; cbn [bind]; [| discriminate].
  destruct (Agent.velocity a) as [v | n]; cbn [as_vector bind]; [| discriminate].
  rewrite magnitude_ok. cbn [bind].
  destruct (Rltb 0 (norm v)); intros [= <-]; split; reflexivity.
Qed.

Lemma interact_with_boundary_max_energy (a a' : Agent.t) (bd : Boundary.t) :
  Agent.interact_with_boundary a bd = Ok a' ->
  Agent.max_energy a' = Agent.max_energy a /\ Agent.energy a' = Agent.energy a.
Proof.
  unfold Agent.interact_with_boundary.
  destruct (Agent.is_moving a); cbn [negb]; [| intros [= <-]; tauto].
  destruct (Boundary.is_near_boundary _ _ _); [| intros [= <-]; tauto].
  destruct (Agent.velocity a) as [v | n]; cbn [as_vector bind]; [| discriminate].
  rewrite magnitude_ok. cbn [bind]. intros [= <-]. split; reflexivity.
Qed.

(** C3, as the claim has it, fails: nothing keeps [delta_time] from being
    negative, and then the decay factor exceeds 1.  The agent built with
    energy 1 and the default rates has energy above its [max_energy] after
    one [energy_update] with [delta_time = -1]. *)
Lemma negative_step_breaks_energy_bound :
  Agent.new (mk 0 0) (mk 3 4) 1 5 (1 / 10) (1 / 100) = Ok (origin_agent true) /\
  0 <= Agent.energy (origin_agent true) <= Agent.max_energy (origin_agent true) /\
  exists a',
    Agent.energy_update (origin_agent true) (-1) (constant_rng 0)
      = Ok (a', constant_rng 0) /\
    Agent.max_energy a' < Agent.energy a'.
Proof.
  split; [| split].
  - unfold Agent.new. rewrite magnitude_ok, norm_3_4. reflexivity.
  - cbn. lra.
  - assert (Hd : 1 + 1 / 10 <= decayed (origin_agent true) (-1)).
    { unfold decayed, origin_agent. cbn [Agent.energy Agent.nrg_decay].
      pose proof (exp_ineq1_le (- (1 / 10) * -1)) as H. lra. }
    rewrite (energy_update_moving (origin_agent true) (mk 3 4) (-1) (constant_rng 0)
               eq_refl eq_refl).
    rewrite Rltb_false.
    + eexists. split; [reflexivity |]. cbn. lra.
    + rewrite norm_mul, norm_3_4, Rabs_pos_eq by lra. lra.
Qed.

(** C3, amended: an agent built with energy, decay rate and gain rate not
    below 0 has [max_energy] equal to its energy and satisfies the
    invariant [0 <= energy <= max_energy]; and once [delta_time] is not
    negative, [energy_update], [update], [interact_with_agent] and
    [interact_with_boundary] each return an agent that satisfies the
    invariant with the same [max_energy].  On a resting agent
    [energy_update] returns an energy that is not below the old one and not
    above [max_energy]. *)
Theorem energy_invariant_preserved
    (p v : t) (e r d gn : R) (a b : Agent.t) (bd : Boundary.t) (dt std : R) (g : Rng) :
  (0 <= e -> 0 <= d -> 0 <= gn ->
     exists a0, Agent.new p v e r d gn = Ok a0 /\ agent_inv a0 /\
                Agent.max_energy a0 = e /\ Agent.energy a0 = e) /\
  (agent_inv a -> 0 <= dt ->
     (exists a' g', Agent.energy_update a dt g = Ok (a', g') /\ agent_inv a' /\
                    Agent.max_energy a' = Agent.max_energy a /\
                    (Agent.is_moving a = false ->
                     Agent.energy a <= Agent.energy a' <= Agent.max_energy a)) /\
     (exists a' g', Agent.update a dt std g = Ok (a', g') /\ agent_inv a' /\
                    Agent.max_energy a' = Agent.max_energy a) /\
     (exists a', Agent.interact_with_agent a b = Ok a' /\ agent_inv a' /\
                 Agent.max_energy a' = Agent.max_energy a) /\
     (exists a', Agent.interact_with_boundary a bd = Ok a' /\ agent_inv a' /\
                 Agent.max_energy a' = Agent.max_energy a)).
Proof.
  split.
  - intros He Hd Hg. destruct (new_inv p v e r d gn He Hd Hg) as [a0 H].
    exists a0. tauto.
  - intros Hinv Hdt. split; [| split; [| split]].
    + destruct (energy_update_inv a dt g Hinv Hdt) as [a' [g' [E [Hi Hr]]]].
      exists a', g'. pose proof (energy_update_max_energy _ _ _ _ _ E). tauto.
    + destruct (update_inv a dt std g Hinv Hdt) as [a' [g' [E Hi]]].
      exists a', g'. pose proof (update_max_energy _ _ _ _ _ _ E). tauto.
    + destruct (interact_with_agent_inv a b Hinv) as [a' [E Hi]].
      exists a'. pose proof (interact_with_agent_max_energy _ _ _ E). tauto.
    + destruct (interact_with_boundary_inv a bd Hinv) as [a' [E Hi]].
      exists a'. pose proof (interact_with_boundary_max_energy _ _ _ E). tauto.
Qed.

Lemma origin_agent_inv (m : bool) : agent_inv (origin_agent m).
Proof. inv_fields. intros _. eexists. reflexivity. Qed.

Lemma energy_invariant_preserved_witness :
  (exists a0, Agent.new (mk 0 0) (mk 3 4) 1 5 (1 / 10) (1 / 100) = Ok a0 /\
              agent_inv a0 /\ Agent.max_energy a0 = 1 /\ Agent.energy a0 = 1) /\
  (exists a' g', Agent.energy_update (origin_agent false) (1 / 10) (constant_rng 0)
                   = Ok (a', g') /\ agent_inv a' /\
                 Agent.max_energy a' = Agent.max_energy (origin_agent false) /\
                 (Agent.is_moving (origin_agent false) = false ->
                  Agent.energy (origin_agent false) <= Agent.energy a'
                    <= Agent.max_energy (origin_agent false))).
Proof.
  pose proof (energy_invariant_preserved (mk 0 0) (mk 3 4) 1 5 (1 / 10) (1 / 100)
                (origin_agent false) (origin_agent true) (Boundary.new 100 100)
                (1 / 10) 0 (constant_rng 0)) as [Hnew Hops].
  split.
  - apply Hnew; lra.
  - apply Hops; [apply origin_agent_inv | lra].
Defined.

End MaxEnergy.

(** ** Resting agents under the simulation step *)

Section SimulationStep.
Import Vector2D Vector2DFacts.

Lemma keeps_resting_refl (a : Agent.t) : agent_inv a -> keeps_resting a a.
Proof. intros H. split; [exact H | reflexivity]. Qed.

Lemma keeps_resting_trans (a b c : Agent.t) :
  keeps_resting a b -> keeps_resting b c -> keeps_resting a c.
Proof.
  intros [Hb Hab] [Hc Hbc]. split; [exact Hc |].
  intros Hm. rewrite <- (Hab Hm). apply Hbc. rewrite (Hab Hm). exact Hm.
Qed.

Lemma keeps_resting_list_refl (l : list Agent.t) :
  Forall agent_inv l -> Forall2 keeps_resting l l.
Proof. intros H. apply Forall_Forall2_diag. eapply Forall_impl; [exact H |].
  intros a Ha. apply keeps_resting_refl, Ha. Qed.

Lemma keeps_resting_list_inv (l l' : list Agent.t) :
  Forall2 keeps_resting l l' -> Forall agent_inv l'.
Proof. induction 1 as [| a a' l l' [Ha _] _ IH]; constructor; assumption. Qed.

Lemma keeps_resting_list_trans (l1 l2 l3 : list Agent.t) :
  Forall2 keeps_resting l1 l2 -> Forall2 keeps_resting l2 l3 ->
  Forall2 keeps_resting l1 l3.
Proof.
  intros H. revert l3. induction H as [| a b l1 l2 Hab _ IH]; intros l3 H23.
  - inversion H23. constructor.
  - inversion H23 as [| b' c l2' l3' Hbc Hrest]; subst. constructor.
    + eapply keeps_resting_trans; eassumption.
    + apply IH, Hrest.
Qed.

Lemma keeps_resting_insert (l0 l : list Agent.t) (i : nat) (a b : Agent.t) :
  Forall2 keeps_resting l0 l -> l !! i = Some a -> keeps_resting a b ->
  Forall2 keeps_resting l0 (<[i := b]> l).
Proof.
  intros H. revert i. induction H as [| x y l0 l Hxy Hrest IH]; intros i Hi Hab.
  - constructor.
  - destruct i as [| i]; cbn in *.
    + injection Hi as ->. constructor; [| assumption].
      eapply keeps_resting_trans; eassumption.
    + constructor; [assumption |]. apply IH; assumption.
Qed.

Lemma for_each_inv {A S : Type} (P : S -> Prop) (Q : A -> Prop)
    (xs : list A) (body : A -> S -> result S) (s : S) :
  (forall x s, Q x -> P s -> exists s', body x s = Ok s' /\ P s') ->
  Forall Q xs -> P s -> exists s', for_each xs body s = Ok s' /\ P s'.
Proof.
  intros Hbody Hxs. revert s. induction Hxs as [| x xs Hx _ IH]; intros s Hs.
  - exists s. split; [reflexivity | exact Hs].
  - cbn [for_each]. destruct (Hbody x s Hx Hs) as [s1 [-> Hs1]]. cbn [bind].
    apply IH, Hs1.
Qed.

(** What [update] and the two interaction passes do to one agent. *)
Lemma guarded_update_keeps (a : Agent.t) (dt std : R) (g : Rng) :
  agent_inv a -> 0 <= dt ->
  exists a' g', (if Agent.can_move a then Agent.update a dt std g else Ok (a, g))
                = Ok (a', g') /\ keeps_resting a a'.
Proof.
  intros Hinv Hdt. unfold Agent.can_move. destruct (Agent.is_moving a) eqn:Hm.
  - destruct (update_inv a dt std g Hinv Hdt) as [a' [g' [E Hi]]].
    exists a', g'. split; [exact E |]. split; [exact Hi | congruence].
  - exists a, g. split; [reflexivity |]. apply keeps_resting_refl, Hinv.
Qed.

Lemma guarded_interact_keeps (a b : Agent.t) :
  agent_inv a ->
  exists a', (if Agent.can_move a then Agent.interact_with_agent a b else Ok a) = Ok a'
             /\ keeps_resting a a'.
Proof.
  intros Hinv. unfold Agent.can_move. destruct (Agent.is_moving a) eqn:Hm.
  - destruct (interact_with_agent_inv a b Hinv) as [a' [E Hi]].
    exists a'. split; [exact E |]. split; [exact Hi | congruence].
  - exists a. split; [reflexivity |]. apply keeps_resting_refl, Hinv.
Qed.

Lemma guarded_boundary_keeps (a : Agent.t) (bd : Boundary.t) :
  agent_inv a ->
  exists a', (if Agent.can_move a then Agent.interact_with_boundary a bd else Ok a) = Ok a'
             /\ keeps_resting a a'.
Proof.
  intros Hinv. unfold Agent.can_move. destruct (Agent.is_moving a) eqn:Hm.
  - destruct (interact_with_boundary_inv a bd Hinv) as [a' [E Hi]].
    exists a'. split; [exact E |]. split; [exact Hi | congruence].
  - exists a. split; [reflexivity |]. apply keeps_resting_refl, Hinv.
Qed.

Lemma update_loop_keeps (dt std : R) (l : list Agent.t) (g : Rng) :
  Forall agent_inv l -> 0 <= dt ->
  exists l' g', Simulation.update_loop dt std l g = Ok (l', g') /\
                Forall2 keeps_resting l l'.
Proof.
  intros Hl Hdt. revert g. induction Hl as [| a l Ha _ IH]; intros g.
  - do 2 eexists. split; [reflexivity | constructor].
  - cbn [Simulation.update_loop].
    destruct (guarded_update_keeps a dt std g Ha Hdt) as [a' [g1 [-> Hk]]].
    cbn [bind]. destruct (IH g1) as [l' [g2 [-> Hl']]]. cbn [bind].
    do 2 eexists. split; [reflexivity |]. constructor; assumption.
Qed.

Lemma boundary_loop_keeps (bd : Boundary.t) (l : list Agent.t) :
  Forall agent_inv l ->
  exists l', Simulation.boundary_loop bd l = Ok l' /\ Forall2 keeps_resting l l'.
Proof.
  intros Hl. induction Hl as [| a l Ha _ IH].
  - eexists. split; [reflexivity | constructor].
  - cbn [Simulation.boundary_loop].
    destruct (guarded_boundary_keeps a bd Ha) as [a' [-> Hk]]. cbn [bind].
    destruct IH as [l' [-> Hl']]. cbn [bind].
    eexists. split; [reflexivity |]. constructor; assumption.
Qed.

Lemma getitem_lt {A : Type} (l : list A) (i : nat) :
  (i < length l)%nat -> exists a, l !! i = Some a /\ getitem l i = Ok a.
Proof.
  intros H. destruct (lookup_lt_is_Some_2 l i H) as [a Ha].
  exists a. split; [exact Ha |]. unfold getitem. rewrite Ha. reflexivity.
Qed.

Lemma interact_pair_keeps (r : R) (i j : nat) (l0 l : list Agent.t) :
  Forall2 keeps_resting l0 l -> (i < length l)%nat -> (j < length l)%nat ->
  exists l', Simulation.interact_pair r i j l = Ok l' /\ Forall2 keeps_resting l0 l'.
Proof.
  intros Hk Hi Hj. unfold Simulation.interact_pair.
  destruct (getitem_lt l i Hi) as [a1 [H1 ->]].
  destruct (getitem_lt l j Hj) as [a2 [H2 ->]]. cbn [bind].
  pose proof (keeps_resting_list_inv _ _ Hk) as Hinv.
  assert (Ha1 : agent_inv a1) by (eapply Forall_lookup_1; eassumption).
  assert (Ha2 : agent_inv a2) by (eapply Forall_lookup_1; eassumption).
  destruct (negb (Agent.can_move a1) && negb (Agent.can_move a2));
    [exists l; tauto |].
  unfold Agent.detect_collision, distance_to. rewrite magnitude_ok. cbn [bind].
  destruct (Rleb _ r); [| exists l; tauto].
  destruct (guarded_interact_keeps a1 a2 Ha1) as [a1' [-> Hk1]]. cbn [bind].
  destruct (guarded_interact_keeps a2 a1' Ha2) as [a2' [-> Hk2]]. cbn [bind].
  eexists. split; [reflexivity |].
  pose proof (keeps_resting_insert l0 l i a1 a1' Hk H1 Hk1) as Hk'.
  destruct (Nat.eq_dec i j) as [-> | Hne].
  - rewrite list_insert_insert_eq. apply (keeps_resting_insert l0 l j a2 a2' Hk H2 Hk2).
  - apply (keeps_resting_insert l0 _ j a2 a2' Hk'); [| exact Hk2].
    rewrite list_lookup_insert_ne by exact Hne. exact H2.
Qed.

Lemma check_interactions_from_keeps (r : R) (i : nat) (l0 l : list Agent.t) :
  Forall2 keeps_resting l0 l -> (i < length l0)%nat ->
  exists l', Simulation.check_interactions_from r i l = Ok l' /\
             Forall2 keeps_resting l0 l'.
Proof.
  intros Hk Hi. unfold Simulation.check_interactions_from.
  pose proof (Forall2_length _ _ _ Hk) as Hlen.
  apply (for_each_inv (fun l => Forall2 keeps_resting l0 l)
           (fun j => (j < length l0)%nat)).
  - intros j l1 Hj Hk1. pose proof (Forall2_length _ _ _ Hk1) as Hlen1.
    apply interact_pair_keeps; [exact Hk1 | lia | lia].
  - apply Forall_forall. intros j Hj. apply elem_of_seq in Hj. lia.
  - exact Hk.
Qed.

Lemma check_interactions_keeps (sim : Simulation.t) :
  Forall agent_inv (Simulation.agents sim) ->
  exists l', Simulation.check_interactions sim = Ok (Simulation.set_agents sim l') /\
             Forall2 keeps_resting (Simulation.agents sim) l'.
Proof.
  intros Hinv. unfold Simulation.check_interactions.
  destruct (for_each_inv (fun l => Forall2 keeps_resting (Simulation.agents sim) l)
              (fun i => (i < length (Simulation.agents sim))%nat)
              (seq 0 (length (Simulation.agents sim)))
              (Simulation.check_interactions_from (Simulation.interaction_radius sim))
              (Simulation.agents sim)) as [l' [-> Hk]].
  - intros i l Hi Hk. apply check_interactions_from_keeps; assumption.
  - apply Forall_forall. intros i Hi. apply elem_of_seq in Hi. lia.
  - apply keeps_resting_list_refl, Hinv.
  - cbn [bind]. exists l'. split; [reflexivity | exact Hk].
Qed.

Lemma update_keeps (sim : Simulation.t) (g : Rng) :
  Forall agent_inv (Simulation.agents sim) -> 0 <= Simulation.time_step sim ->
  exists sim' g',
    Simulation.update sim g = Ok (sim', g') /\
    Forall2 keeps_resting (Simulation.agents sim) (Simulation.agents sim') /\
    Simulation.time_step sim' = Simulation.time_step sim /\
    Simulation.current_time sim' = Simulation.current_time sim + Simulation.time_step sim.
Proof.
  intros Hinv Hdt. unfold Simulation.update.
  destruct (update_loop_keeps (Simulation.time_step sim) (Simulation.random_std_dev sim)
              (Simulation.agents sim) g Hinv Hdt) as [l1 [g1 [-> Hk1]]].
  cbn [bind].
  destruct (check_interactions_keeps (Simulation.set_agents sim l1)) as [l2 [-> Hk2]];
    [exact (keeps_resting_list_inv _ _ Hk1) |].
  cbn [bind]. unfold Simulation.check_boundary_collisions.
  cbn [Simulation.set_agents Simulation.agents Simulation.boundary] in *.
  destruct (boundary_loop_keeps (Simulation.boundary sim) l2) as [l3 [-> Hk3]];
    [exact (keeps_resting_list_inv _ _ Hk2) |].
  cbn [bind]. do 2 eexists. split; [reflexivity |].
  cbn. split; [| split; reflexivity].
  eapply keeps_resting_list_trans; [| exact Hk3].
  eapply keeps_resting_list_trans; eassumption.
Qed.

Lemma steps_keeps (n : nat) (sim : Simulation.t) (g : Rng) :
  Forall agent_inv (Simulation.agents sim) -> 0 <= Simulation.time_step sim ->
  exists sim' g',
    Simulation.steps n sim g = Ok (sim', g') /\
    Forall2 keeps_resting (Simulation.agents sim) (Simulation.agents sim').
Proof.
  revert sim g. induction n as [| n IH]; intros sim g Hinv Hdt.
  - exists sim, g. split; [reflexivity |]. apply keeps_resting_list_refl, Hinv.
  - cbn [Simulation.steps].
    destruct (update_keeps sim g Hinv Hdt) as [sim1 [g1 [-> [Hk1 [Hts _]]]]].
    cbn [bind].
    destruct (IH sim1 g1) as [sim2 [g2 [-> Hk2]]].
    + exact (keeps_resting_list_inv _ _ Hk1).
    + rewrite Hts. exact Hdt.
    + exists sim2, g2. split; [reflexivity |].
      eapply keeps_resting_list_trans; eassumption.
Qed.

(** C1 does not hold of the code: [Simulation.update] calls [Agent.update]
    only on the agents that can move, so the energy update of a resting
    agent is never run.  Whatever the number of steps, on a simulation of
    agents that satisfy the invariant and with a time step that is not
    negative, the steps return and every resting agent is, at its index,
    exactly the agent it was: same energy, still resting. *)
Theorem resting_agent_frozen_by_steps (n : nat) (sim : Simulation.t) (g : Rng) :
  Forall agent_inv (Simulation.agents sim) -> 0 <= Simulation.time_step sim ->
  exists sim' g',
    Simulation.steps n sim g = Ok (sim', g') /\
    forall (i : nat) (a : Agent.t),
      Simulation.agents sim !! i = Some a -> Agent.is_moving a = false ->
      Simulation.agents sim' !! i = Some a.
Proof.
  intros Hinv Hdt.
  destruct (steps_keeps n sim g Hinv Hdt) as [sim' [g' [E Hk]]].
  exists sim', g'. split; [exact E |].
  intros i a Hi Hm.
  destruct (Forall2_lookup_l _ _ _ _ _ Hk Hi) as [a' [Hi' [_ Hsame]]].
  rewrite Hi'. f_equal. apply Hsame, Hm.
Qed.

Lemma tired_agent_inv : agent_inv tired_agent.
Proof. inv_fields. discriminate. Qed.

(** Called directly, [Agent.update] does restore energy to the resting
    agent: from [1/2] to [51/100]. *)
Lemma tired_agent_direct_update (dt std : R) (g : Rng) :
  exists a', Agent.update tired_agent dt std g = Ok (a', g) /\
             Agent.energy a' = 51 / 100 /\ Agent.is_moving a' = false.
Proof.
  unfold Agent.update, Agent.energy_update, tired_agent.
  cbn [Agent.is_moving Agent.set_energy Agent.energy Agent.nrg_gain Agent.max_energy
       Agent.position Agent.velocity Agent.radius Agent.nrg_decay Agent.movement_time
       Agent.base_speed].
  rewrite py_min_Rmin, Rmin_left by lra.
  rewrite Reqb_false by lra.
  eexists. split; [reflexivity |]. cbn. split; [lra | reflexivity].
Qed.

Lemma resting_agent_frozen_by_steps_witness :
  exists sim' g',
    Simulation.steps 3 (sample_simulation [tired_agent]) (constant_rng 0)
      = Ok (sim', g') /\
    Simulation.agents sim' !! 0%nat = Some tired_agent.
Proof.
  assert (Hinv : Forall agent_inv (Simulation.agents (sample_simulation [tired_agent])))
    by (cbn; constructor; [apply tired_agent_inv | constructor]).
  assert (Hdt : 0 <= Simulation.time_step (sample_simulation [tired_agent]))
    by (cbn; lra).
  destruct (resting_agent_frozen_by_steps 3 (sample_simulation [tired_agent])
              (constant_rng 0) Hinv Hdt) as [sim' [g' [E Hfix]]].
  exists sim', g'. split; [exact E |].
  apply Hfix; reflexivity.
Defined.

End SimulationStep.

(** ** A moving agent comes to rest *)

Section ComesToRest.
Import Vector2D Vector2DFacts.

Lemma update_moving_step (a : Agent.t) (v : t) (dt : R) (g : Rng) :
  Agent.is_moving a = true -> Agent.velocity a = PVec v ->
  exists a1,
    Agent.update a dt 0 g = Ok (a1, g) /\
    Agent.energy a1 = decayed a dt /\
    Agent.nrg_decay a1 = Agent.nrg_decay a /\
    ((norm (mul v (decayed a dt)) < 1 /\
      Agent.is_moving a1 = false /\ Agent.velocity a1 = PInt 0)
     \/ (1 <= norm (mul v (decayed a dt)) /\
         Agent.is_moving a1 = true /\ Agent.velocity a1 = PVec (mul v (decayed a dt)))).
Proof.
  intros Hm Hv. unfold Agent.update. rewrite Hm, Hv, (Rltb_false 0 0) by lra.
  cbn [as_vector bind].
  set (a0 := Agent.set_movement_time _ _).
  assert (Hm0 : Agent.is_moving a0 = true) by exact Hm.
  assert (Hv0 : Agent.velocity a0 = PVec v) by exact Hv.
  rewrite (energy_update_moving a0 v dt g Hm0 Hv0).
  change (decayed a0 dt) with (decayed a dt).
  destruct (Rlt_dec (norm (mul v (decayed a dt))) 1) as [Hlt | Hge].
  - rewrite Rltb_true by exact Hlt. eexists. split; [reflexivity |].
    split; [reflexivity |]. split; [reflexivity |]. left. tauto.
  - rewrite Rltb_false by lra. eexists. split; [reflexivity |].
    split; [reflexivity |]. split; [reflexivity |]. right.
    split; [lra |]. split; [exact Hm | reflexivity].
Qed.

Lemma rests_at_now (a : Agent.t) (dt : R) (g : Rng) :
  Agent.is_moving a = false -> rests_at dt g 0 a.
Proof.
  intros Hm. split; [| split].
  - exists a. split; [reflexivity | exact Hm].
  - intros k Hk. lia.
  - intros _ k Hk. lia.
Qed.

Lemma rests_at_later (a a1 : Agent.t) (dt : R) (g : Rng) (n : nat) :
  Agent.is_moving a = true ->
  Agent.update a dt 0 g = Ok (a1, g) ->
  (Rabs (Agent.energy a) <= 1 ->
   Rabs (Agent.energy a1) <= 1 /\ Agent.speed a1 <= Agent.speed a) ->
  rests_at dt g n a1 -> rests_at dt g (S n) a.
Proof.
  intros Hm Hu Hmono [[a' [Hn Hrest]] [Hbefore Hslow]].
  assert (Hs : forall k, updates (S k) a dt 0 g = updates k a1 dt 0 g).
  { intros k. cbn [updates]. rewrite Hu. reflexivity. }
  split; [| split].
  - exists a'. rewrite Hs. tauto.
  - intros [| k] Hk.
    + exists a. split; [reflexivity | exact Hm].
    + rewrite Hs. apply Hbefore. lia.
  - intros He. destruct (Hmono He) as [He1 Hsp]. intros [| k] Hk.
    + exists a, a1. split; [reflexivity |]. split; [| exact Hsp].
      cbn [updates]. rewrite Hu. reflexivity.
    + rewrite !Hs. apply Hslow; [exact He1 | lia].
Qed.

Variables (d dt : R) (g : Rng).
Hypothesis d_pos : 0 < d.
Hypothesis dt_pos : 0 < dt.

Local Abbreviation q := (decay_factor d dt).

Lemma decay_factor_bounds : 0 < q < 1.
Proof.
  unfold decay_factor. split; [apply exp_pos |].
  assert (H : exp (- d * dt) < exp 0) by (apply exp_increasing; nra).
  rewrite exp_0 in H. exact H.
Qed.

Lemma decayed_factor (a : Agent.t) :
  Agent.nrg_decay a = d -> decayed a dt = Agent.energy a * q.
Proof. intros Hd. unfold decayed, decay_factor. rewrite Hd. reflexivity. Qed.

(** One step of a moving agent, in the terms of the argument below. *)
Lemma moving_step (a : Agent.t) (v : t) :
  Agent.is_moving a = true -> Agent.velocity a = PVec v -> Agent.nrg_decay a = d ->
  exists a1,
    Agent.update a dt 0 g = Ok (a1, g) /\
    Agent.energy a1 = Agent.energy a * q /\
    Agent.nrg_decay a1 = d /\
    (Rabs (Agent.energy a) <= 1 ->
     Rabs (Agent.energy a1) <= 1 /\ Agent.speed a1 <= Agent.speed a) /\
    (Agent.is_moving a1 = false
     \/ (Agent.is_moving a1 = true /\
         Agent.velocity a1 = PVec (mul v (Agent.energy a * q)) /\
         1 <= norm v * (Rabs (Agent.energy a) * q))).
Proof.
  intros Hm Hv Hd. pose proof decay_factor_bounds as Hq.
  destruct (update_moving_step a v dt g Hm Hv) as [a1 [Hu [He [Hd1 Hcase]]]].
  rewrite (decayed_factor a Hd) in He, Hcase.
  assert (Habs : Rabs (Agent.energy a * q) = Rabs (Agent.energy a) * q).
  { rewrite Rabs_mult, (Rabs_pos_eq q) by lra. reflexivity. }
  exists a1. split; [exact Hu |]. split; [exact He |]. split; [congruence |]. split.
  - intros Hle. pose proof (Rabs_pos (Agent.energy a)) as Hp.
    pose proof (norm_nonneg v) as Hn. split.
    + rewrite He, Habs. nra.
    + unfold Agent.speed. rewrite Hv.
      destruct Hcase as [[_ [_ ->]] | [_ [_ ->]]].
      * rewrite Rabs_R0. exact Hn.
      * rewrite norm_mul, Habs.
        assert (Hf : Rabs (Agent.energy a) * q <= 1) by nra. nra.
  - destruct Hcase as [[_ [Hr _]] | [Hge [Hm1 Hv1]]]; [left; exact Hr | right].
    split; [exact Hm1 |]. split; [exact Hv1 |].
    rewrite norm_mul, Habs in Hge. exact Hge.
Qed.

(** Once a decay step at least halves the speed, [m] halvings that bring
    the speed below 1 bound the number of steps to the rest. *)
Lemma rests_when_halving (m : nat) :
  forall (a : Agent.t) (v : t),
    Agent.is_moving a = true -> Agent.velocity a = PVec v -> Agent.nrg_decay a = d ->
    Rabs (Agent.energy a) * q <= 1 / 2 ->
    norm v * (1 / 2) ^ m < 1 ->
    exists n, rests_at dt g n a.
Proof.
  pose proof decay_factor_bounds as Hq.
  induction m as [| m IH]; intros a v Hm Hv Hd Hhalf Hsmall;
    destruct (moving_step a v Hm Hv Hd) as [a1 [Hu [He [Hd1 [Hmono Hcase]]]]];
    pose proof (norm_nonneg v) as Hn; pose proof (Rabs_pos (Agent.energy a)) as Hp.
  - destruct Hcase as [Hr | [_ [_ Hge]]].
    + exists 1%nat. eapply rests_at_later; eauto using rests_at_now.
    + exfalso. cbn [pow] in Hsmall. nra.
  - destruct Hcase as [Hr | [Hm1 [Hv1 Hge]]].
    + exists 1%nat. eapply rests_at_later; eauto using rests_at_now.
    + destruct (IH a1 _ Hm1 Hv1 Hd1) as [n Hn1].
      * rewrite He, Rabs_mult, (Rabs_pos_eq q) by lra. nra.
      * rewrite norm_mul, Rabs_mult, (Rabs_pos_eq q) by lra.
        cbn [pow] in Hsmall.
        assert (Hpow : 0 <= (1 / 2) ^ m) by (apply pow_le; lra).
        assert (Hle : norm v * (Rabs (Agent.energy a) * q) <= norm v * (1 / 2))
          by (apply Rmult_le_compat_l; lra).
        apply Rle_lt_trans with (norm v * (1 / 2) * (1 / 2) ^ m); [| nra].
        apply Rmult_le_compat_r; assumption.
      * exists (S n). eapply rests_at_later; eauto.
Qed.

Lemma pow_eventually_small (x s : R) :
  0 <= x < 1 -> 0 <= s -> exists N : nat, forall n : nat, (N <= n)%nat -> s * x ^ n < 1.
Proof.
  intros Hx Hs.
  assert (Hy : 0 < / (s + 1)) by (apply Rinv_0_lt_compat; lra).
  destruct (pow_lt_1_zero x) with (y := / (s + 1)) as [N HN];
    [rewrite Rabs_pos_eq; lra | exact Hy |].
  exists N. intros n Hn. specialize (HN n Hn).
  assert (Hp : 0 <= x ^ n) by (apply pow_le; lra).
  rewrite Rabs_pos_eq in HN by exact Hp.
  assert (E : / (s + 1) * (s + 1) = 1) by (field; lra).
  nra.
Qed.

(** Before that, each step multiplies the energy by the decay factor, so
    after finitely many steps a decay step at least halves the speed. *)
Lemma rests_when_warm (K : nat) :
  forall (a : Agent.t) (v : t),
    Agent.is_moving a = true -> Agent.velocity a = PVec v -> Agent.nrg_decay a = d ->
    Rabs (Agent.energy a) * q ^ S K <= 1 / 2 ->
    exists n, rests_at dt g n a.
Proof.
  pose proof decay_factor_bounds as Hq.
  induction K as [| K IH]; intros a v Hm Hv Hd Hhalf.
  - destruct (pow_eventually_small (1 / 2) (norm v)) as [m Hsmall];
      [lra | apply norm_nonneg |].
    apply (rests_when_halving m a v Hm Hv Hd).
    + cbn [pow] in Hhalf. lra.
    + apply Hsmall. lia.
  - destruct (moving_step a v Hm Hv Hd) as [a1 [Hu [He [Hd1 [Hmono Hcase]]]]].
    destruct Hcase as [Hr | [Hm1 [Hv1 _]]].
    + exists 1%nat. eapply rests_at_later; eauto using rests_at_now.
    + destruct (IH a1 _ Hm1 Hv1 Hd1) as [n Hn].
      * rewrite He, Rabs_mult, (Rabs_pos_eq q) by lra.
        replace (Rabs (Agent.energy a) * q * q ^ S K)
          with (Rabs (Agent.energy a) * q ^ S (S K)) by (cbn [pow]; ring).
        exact Hhalf.
      * exists (S n). eapply rests_at_later; eauto.
Qed.

Lemma comes_to_rest (a : Agent.t) (v : t) :
  Agent.is_moving a = true -> Agent.velocity a = PVec v -> Agent.nrg_decay a = d ->
  exists n, rests_at dt g n a.
Proof.
  intros Hm Hv Hd. pose proof decay_factor_bounds as Hq.
  destruct (pow_eventually_small q (2 * Rabs (Agent.energy a))) as [K HK].
  - lra.
  - pose proof (Rabs_pos (Agent.energy a)). lra.
  - apply (rests_when_warm K a v Hm Hv Hd).
    specialize (HK (S K)). lapply HK; [| lia]. lra.
Qed.

End ComesToRest.

Section ComesToRestClaim.
Import Vector2D Vector2DFacts.

(** C4 does not hold of the code: the claim, like the comment "Agent
    should slow down overtime" in [energy_update], wants the speed of a
    moving agent not to grow, but the velocity is multiplied by the raw
    energy, and an energy above 1 makes the agent faster.  One update with
    [delta_time = 1/10] and no noise takes the moving agent of energy 2 and
    decay rate [1/10] from speed 5 to a speed above 9, still moving. *)
Lemma speed_grows_when_energy_above_one :
  0 < Agent.nrg_decay eager_agent /\
  exists a',
    Agent.update eager_agent (1 / 10) 0 (constant_rng 0) = Ok (a', constant_rng 0) /\
    Agent.is_moving a' = true /\
    Agent.speed eager_agent = 5 /\
    9 < Agent.speed a'.
Proof.
  split; [cbn; lra |].
  assert (Hd : 99 / 50 <= decayed eager_agent (1 / 10)).
  { unfold decayed, eager_agent. cbn [Agent.energy Agent.nrg_decay].
    pose proof (exp_ineq1_le (- (1 / 10) * (1 / 10))) as H. lra. }
  destruct (update_moving_step eager_agent (mk 3 4) (1 / 10) (constant_rng 0)
              eq_refl eq_refl) as [a' [Hu [_ [_ Hcase]]]].
  rewrite norm_mul, norm_3_4, Rabs_pos_eq in Hcase by lra.
  exists a'. split; [exact Hu |].
  destruct Hcase as [[Hlt _] | [_ [Hm Hv]]]; [lra |].
  split; [exact Hm |]. split.
  - unfold Agent.speed, eager_agent. cbn [Agent.velocity]. apply norm_3_4.
  - unfold Agent.speed. rewrite Hv, norm_mul, norm_3_4, Rabs_pos_eq by lra. lra.
Qed.

(** A moving agent whose energy starts within [[-1, 1]], with a positive
    decay rate, updated again and again with the same positive [delta_time]
    and no noise, is resting after some number [n] of updates and moving
    after every smaller number, and its speed does not grow from one of
    these updates to the next. *)
Theorem moving_agent_comes_to_rest (a : Agent.t) (v : t) (dt : R) (g : Rng) :
  Agent.is_moving a = true -> Agent.velocity a = PVec v ->
  0 < Agent.nrg_decay a -> 0 < dt -> Rabs (Agent.energy a) <= 1 ->
  exists n : nat,
    (exists a', updates n a dt 0 g = Ok (a', g) /\ Agent.is_moving a' = false) /\
    (forall k : nat, (k < n)%nat ->
       exists ak, updates k a dt 0 g = Ok (ak, g) /\ Agent.is_moving ak = true) /\
    (forall k : nat, (k < n)%nat ->
       exists ak ak1, updates k a dt 0 g = Ok (ak, g) /\
                      updates (S k) a dt 0 g = Ok (ak1, g) /\
                      Agent.speed ak1 <= Agent.speed ak).
Proof.
  intros Hm Hv Hd Hdt He.
  destruct (comes_to_rest (Agent.nrg_decay a) dt g Hd Hdt a v Hm Hv eq_refl)
    as [n [Hrest [Hbefore Hslow]]].
  exists n. split; [exact Hrest |]. split; [exact Hbefore | exact (Hslow He)].
Qed.

Lemma moving_agent_comes_to_rest_witness :
  exists n : nat,
    (exists a', updates n (origin_agent true) (1 / 10) 0 (constant_rng 0)
                = Ok (a', constant_rng 0) /\ Agent.is_moving a' = false) /\
    (forall k : nat, (k < n)%nat ->
       exists ak ak1,
         updates k (origin_agent true) (1 / 10) 0 (constant_rng 0)
           = Ok (ak, constant_rng 0) /\
         updates (S k) (origin_agent true) (1 / 10) 0 (constant_rng 0)
           = Ok (ak1, constant_rng 0) /\
         Agent.speed ak1 <= Agent.speed ak).
Proof.
  assert (Hd : 0 < Agent.nrg_decay (origin_agent true)) by (cbn; lra).
  assert (Hdt : 0 < 1 / 10) by lra.
  assert (He : Rabs (Agent.energy (origin_agent true)) <= 1)
    by (cbn; rewrite Rabs_pos_eq; lra).
  destruct (moving_agent_comes_to_rest (origin_agent true) (mk 3 4) (1 / 10)
              (constant_rng 0) eq_refl eq_refl Hd Hdt He) as [n [Hrest [_ Hslow]]].
  exists n. split; [exact Hrest | exact Hslow].
Defined.

End ComesToRestClaim.

(** ** More on the vector operations *)

Section VectorAlgebra.
Import Vector2D Vector2DFacts.

Lemma sin_cos_sqr (a : R) : sin a * sin a + cos a * cos a = 1.
Proof. pose proof (sin2_cos2 a) as H. unfold Rsqr in H. exact H. Qed.

Lemma norm_rotate (v : t) (a : R) : norm (rotate v a) = norm v.
Proof.
  unfold norm, rotate. cbn [x y]. f_equal.
  pose proof (sin_cos_sqr a) as H.
  replace ((x v * cos a - y v * sin a) ^ 2 + (x v * sin a + y v * cos a) ^ 2)
    with ((x v ^ 2 + y v ^ 2) * (sin a * sin a + cos a * cos a)) by ring.
  rewrite H. ring.
Qed.

(** [rotate] keeps the magnitude of every vector. *)
Theorem rotate_preserves_magnitude (v : t) (a : R) :
  magnitude (rotate v a) = magnitude v.
Proof. rewrite !magnitude_ok, norm_rotate. reflexivity. Qed.

(** Rotations compose by adding the angles; the angle 0 changes nothing, so
    rotating by [a] and then by [-a] gives the vector back. *)
Theorem rotate_compose (v : t) (a b : R) :
  rotate (rotate v a) b = rotate v (a + b) /\
  rotate v 0 = v /\
  rotate (rotate v a) (- a) = v.
Proof.
  assert (Hc : forall a b, rotate (rotate v a) b = rotate v (a + b)).
  { intros a' b'. unfold rotate. cbn [x y]. rewrite cos_plus, sin_plus.
    f_equal; ring. }
  assert (H0 : rotate v 0 = v).
  { unfold rotate. rewrite cos_0, sin_0. destruct v as [vx vy]. cbn [x y].
    f_equal; ring. }
  split; [apply Hc |]. split; [exact H0 |].
  rewrite Hc. replace (a + - a) with 0 by ring. exact H0.
Qed.

Lemma rotate_quarter (v : t) : rotate v (PI / 2) = mk (- y v) (x v).
Proof. unfold rotate. rewrite cos_PI2, sin_PI2. f_equal; ring. Qed.

(** A quarter turn, as [interact_with_agent] uses it, sends [(x, y)] to
    [(-y, x)]: a vector of the same length, perpendicular to the first. *)
Theorem rotate_quarter_turn (v : t) :
  rotate v (PI / 2) = mk (- y v) (x v) /\
  dot (rotate v (PI / 2)) v = 0 /\
  magnitude (rotate v (PI / 2)) = magnitude v.
Proof.
  pose proof (rotate_quarter v) as E.
  split; [exact E |]. split.
  - rewrite E. unfold dot. cbn [x y]. ring.
  - rewrite !magnitude_ok, norm_rotate. reflexivity.
Qed.

Lemma norm_sub_sym (p r : t) : norm (sub p r) = norm (sub r p).
Proof.
  unfold norm, sub. cbn [x y]. f_equal. ring.
Qed.

Lemma dot_le_norms (a b : t) : dot a b <= norm a * norm b.
Proof.
  pose proof (norm_nonneg a) as Ha. pose proof (norm_nonneg b) as Hb.
  pose proof (norm_sqr a) as Sa. pose proof (norm_sqr b) as Sb.
  unfold dot.
  assert (Hsq : (x a * x b + y a * y b) ^ 2 <= (norm a * norm b) ^ 2).
  { replace ((norm a * norm b) ^ 2) with ((norm a * norm a) * (norm b * norm b)) by ring.
    rewrite Sa, Sb.
    assert (0 <= (x a * y b - y a * x b) ^ 2) by (apply pow2_ge_0). nra. }
  destruct (Rle_or_lt (x a * x b + y a * y b) (norm a * norm b)) as [H | H];
    [exact H |].
  assert (0 <= norm a * norm b) by nra. nra.
Qed.

Lemma norm_add_le (a b : t) : norm (add a b) <= norm a + norm b.
Proof.
  pose proof (norm_nonneg a) as Ha. pose proof (norm_nonneg b) as Hb.
  pose proof (norm_nonneg (add a b)) as Hab.
  pose proof (norm_sqr a) as Sa. pose proof (norm_sqr b) as Sb.
  pose proof (norm_sqr (add a b)) as Sab.
  pose proof (dot_le_norms a b) as Hd. unfold dot in Hd.
  unfold add in Sab. cbn [x y] in Sab. fold (add a b) in Sab.
  destruct (Rle_or_lt (norm (add a b)) (norm a + norm b)) as [H | H]; [exact H |].
  nra.
Qed.

(** [distance_to] is a metric on positions: it returns a number that is
    not negative, is 0 exactly between equal positions, is symmetric, and
    obeys the triangle inequality. *)
Theorem distance_to_metric (p r s : t) :
  distance_to p r = Ok (norm (sub p r)) /\
  0 <= norm (sub p r) /\
  (distance_to p r = Ok 0 <-> p = r) /\
  distance_to p r = distance_to r p /\
  norm (sub p s) <= norm (sub p r) + norm (sub r s).
Proof.
  unfold distance_to. rewrite !magnitude_ok.
  split; [reflexivity |]. split; [apply norm_nonneg |]. split; [| split].
  - split.
    + intros [= H]. apply norm_zero_iff in H. unfold sub, zero in H.
      injection H as Hx Hy. destruct p as [px py], r as [rx ry]. cbn [x y] in *.
      f_equal; lra.
    + intros ->. rewrite norm_sub_self. reflexivity.
  - rewrite norm_sub_sym. reflexivity.
  - replace (sub p s) with (add (sub p r) (sub r s)).
    + apply norm_add_le.
    + unfold add, sub. cbn [x y]. f_equal; ring.
Qed.

Lemma distance_to_metric_witness : distance_to (mk 1 2) (mk 1 2) = Ok 0.
Proof.
  apply (proj1 (proj2 (proj2 (distance_to_metric (mk 1 2) (mk 1 2) (mk 1 2))))).
  reflexivity.
Defined.

Lemma next_variate_cursor (g : Rng) :
  cursor (snd (next_variate g)) = S (cursor g) /\ stream (snd (next_variate g)) = stream g.
Proof. split; reflexivity. Qed.

(** [add_randomness] reads exactly two variates, adds the first times
    [std_dev] to [x] and the second times [std_dev] to [y]; with
    [std_dev = 0] the vector is returned as it was. *)
Lemma add_randomness_effect (v : t) (std_dev : R) (g : Rng) :
  fst (add_randomness v std_dev g)
    = mk (x v + stream g (cursor g) * std_dev)
         (y v + stream g (S (cursor g)) * std_dev) /\
  snd (add_randomness v std_dev g) = mkRng (stream g) (S (S (cursor g))) /\
  fst (add_randomness v 0 g) = v.
Proof.
  unfold add_randomness, gauss, next_variate. cbn.
  split; [f_equal; ring |]. split; [reflexivity |].
  destruct v as [vx vy]. cbn. f_equal; ring.
Qed.

End VectorAlgebra.

(** ** More on the boundary *)

Section BoundaryGeometry.
Import Vector2D Vector2DFacts.

Lemma Rleb_spec (a b : R) : Rleb a b = true <-> a <= b.
Proof. unfold Rleb. destruct (Rle_dec a b); split; intros; try discriminate; tauto. Qed.

Lemma Rgeb_spec (a b : R) : Rgeb a b = true <-> b <= a.
Proof.
  unfold Rgeb. destruct (Rge_dec a b); split; intros; try discriminate;
    try reflexivity; lra.
Qed.

Lemma is_within_bounds_spec (b : Boundary.t) (p : t) :
  Boundary.is_within_bounds b p = true <->
  (Boundary.min_x b <= x p <= Boundary.max_x b) /\
  (Boundary.min_y b <= y p <= Boundary.max_y b).
Proof.
  unfold Boundary.is_within_bounds. rewrite !andb_true_iff, !Rleb_spec. tauto.
Qed.

Lemma is_near_boundary_spec (b : Boundary.t) (p : t) (th : R) :
  Boundary.is_near_boundary b p th = true <->
  x p <= Boundary.min_x b + th \/ Boundary.max_x b - th <= x p \/
  y p <= Boundary.min_y b + th \/ Boundary.max_y b - th <= y p.
Proof.
  unfold Boundary.is_near_boundary. rewrite !orb_true_iff, !Rleb_spec, !Rgeb_spec.
  tauto.
Qed.

Lemma clamp_axis (lo hi v : R) :
  lo <= hi ->
  lo <= py_max lo (py_min v hi) <= hi /\
  (lo <= v <= hi -> py_max lo (py_min v hi) = v) /\
  (py_max lo (py_min v hi) = v -> lo <= v <= hi).
Proof.
  intros H. unfold py_max, py_min, Rltb.
  destruct (Rlt_dec hi v), (Rlt_dec lo hi), (Rlt_dec lo v); repeat split; intros; lra.
Qed.

(** On a boundary whose minima are not above its maxima, [clamp_position]
    returns a position within the bounds, returns exactly the positions
    within the bounds unchanged, and clamping twice is clamping once. *)
Theorem clamp_position_within_bounds (b : Boundary.t) (p : t) :
  Boundary.min_x b <= Boundary.max_x b -> Boundary.min_y b <= Boundary.max_y b ->
  Boundary.is_within_bounds b (Boundary.clamp_position b p) = true /\
  (Boundary.is_within_bounds b p = true <-> Boundary.clamp_position b p = p) /\
  Boundary.clamp_position b (Boundary.clamp_position b p) = Boundary.clamp_position b p.
Proof.
  intros Hx Hy.
  destruct (clamp_axis _ _ (x p) Hx) as [Bx [Ix Jx]].
  destruct (clamp_axis _ _ (y p) Hy) as [By [Iy Jy]].
  assert (Hin : Boundary.is_within_bounds b (Boundary.clamp_position b p) = true).
  { apply is_within_bounds_spec. unfold Boundary.clamp_position. cbn [x y]. tauto. }
  assert (Hfix : forall r, Boundary.is_within_bounds b r = true ->
                           Boundary.clamp_position b r = r).
  { intros r Hr. apply is_within_bounds_spec in Hr. destruct Hr as [Hrx Hry].
    unfold Boundary.clamp_position. destruct r as [rx ry]. cbn [x y] in *.
    f_equal; apply clamp_axis; assumption. }
  split; [exact Hin |]. split; [split |].
  - apply Hfix.
  - intros E. rewrite <- E. exact Hin.
  - apply Hfix, Hin.
Qed.

Lemma clamp_position_within_bounds_witness :
  Boundary.is_within_bounds (Boundary.new 100 100)
    (Boundary.clamp_position (Boundary.new 100 100) (mk 120 (-3))) = true.
Proof.
  apply (clamp_position_within_bounds (Boundary.new 100 100) (mk 120 (-3))); cbn; lra.
Defined.

(** A position is away from the boundary exactly when it lies more than
    the threshold inside all four walls; so a position that is not within
    the bounds is near for every threshold that is not negative, and a
    position that is near stays near for every larger threshold. *)
Theorem is_near_boundary_cases (b : Boundary.t) (p : t) (th th' : R) :
  (Boundary.is_near_boundary b p th = false <->
     (Boundary.min_x b + th < x p < Boundary.max_x b - th) /\
     (Boundary.min_y b + th < y p < Boundary.max_y b - th)) /\
  (0 <= th -> Boundary.is_within_bounds b p = false ->
     Boundary.is_near_boundary b p th = true) /\
  (th <= th' -> Boundary.is_near_boundary b p th = true ->
     Boundary.is_near_boundary b p th' = true).
Proof.
  split; [| split].
  - rewrite <- not_true_iff_false, is_near_boundary_spec. lra.
  - intros Hth Hout. apply is_near_boundary_spec.
    rewrite <- not_true_iff_false, is_within_bounds_spec in Hout. lra.
  - intros Hle. rewrite !is_near_boundary_spec. lra.
Qed.

Lemma is_near_boundary_cases_witness :
  Boundary.is_near_boundary (Boundary.new 100 100) (mk (-4) 50) 20 = true.
Proof.
  apply (proj1 (proj2 (is_near_boundary_cases (Boundary.new 100 100) (mk (-4) 50) 20 20))).
  - lra.
  - apply not_true_iff_false. rewrite is_within_bounds_spec. cbn. lra.
Defined.

Lemma min_dist_spec (b : Boundary.t) (p : t) :
  let d := Boundary.min_dist b p in
  let dl := Rabs (x p - Boundary.min_x b) in
  let dr := Rabs (x p - Boundary.max_x b) in
  let db := Rabs (y p - Boundary.min_y b) in
  let dt := Rabs (y p - Boundary.max_y b) in
  d <= dl /\ d <= dr /\ d <= db /\ d <= dt /\ (d = dl \/ d = dr \/ d = db \/ d = dt).
Proof.
  cbv zeta. unfold Boundary.min_dist. rewrite !py_min_Rmin.
  set (dl := Rabs _). set (dr := Rabs _). set (db := Rabs _). set (dt := Rabs _).
  unfold Rmin. repeat destruct (Rle_dec _ _); lra.
Qed.

(** On the boundary built from a positive width and a positive height,
    the normal of [get_normal_at_point] points inward: at every position
    its dot product with the vector to the centre is not negative. *)
Theorem normal_points_inward (w h : R) (p : t) :
  0 < w -> 0 < h ->
  0 <= dot (Boundary.get_normal_at_point (Boundary.new w h) p)
           (sub (mk (w / 2) (h / 2)) p).
Proof.
  intros Hw Hh.
  pose proof (min_dist_spec (Boundary.new w h) p) as Hd. cbv zeta in Hd.
  unfold Boundary.get_normal_at_point, Reqb.
  set (d := Boundary.min_dist (Boundary.new w h) p) in *.
  cbn [Boundary.new Boundary.min_x Boundary.max_x Boundary.min_y Boundary.max_y] in *.
  destruct Hd as [Hl [Hr [Hb [Ht Hone]]]].
  unfold dot, sub.
  destruct (Req_dec_T d (Rabs (x p - 0))) as [E1 | E1].
  { cbn [x y]. rewrite E1 in Hr. revert Hr. unfold Rabs.
    repeat destruct (Rcase_abs _); lra. }
  destruct (Req_dec_T d (Rabs (x p - w))) as [E2 | E2].
  { cbn [x y]. rewrite E2 in Hl. revert Hl. unfold Rabs.
    repeat destruct (Rcase_abs _); lra. }
  destruct (Req_dec_T d (Rabs (y p - 0))) as [E3 | E3].
  { cbn [x y]. rewrite E3 in Ht. revert Ht. unfold Rabs.
    repeat destruct (Rcase_abs _); lra. }
  assert (E4 : d = Rabs (y p - h)) by tauto.
  cbn [x y]. rewrite E4 in Hb. revert Hb. unfold Rabs.
  repeat destruct (Rcase_abs _); lra.
Qed.

Lemma normal_points_inward_witness :
  0 <= dot (Boundary.get_normal_at_point (Boundary.new 100 100) (mk 95 50))
           (sub (mk (100 / 2) (100 / 2)) (mk 95 50)).
Proof. apply (normal_points_inward 100 100 (mk 95 50)); lra. Defined.

End BoundaryGeometry.

(** ** More on the agent operations *)

Section AgentResponses.
Import Vector2D Vector2DFacts.

Lemma sub_nonzero (p r : t) : p <> r -> sub p r <> zero.
Proof.
  intros H E. apply H. unfold sub, zero in E. injection E as Ex Ey.
  destruct p as [px py], r as [rx ry]. cbn [x y] in *. f_equal; lra.
Qed.

(** [interact_with_agent], on a moving agent away from the other one, turns
    the velocity onto the unit vector perpendicular to the line between the
    two agents (the separation turned a quarter turn counter-clockwise) and
    keeps the speed; nothing else of the agent changes.  At speed 0 the
    agent is returned as it was. *)
Theorem interact_with_agent_redirects (a b : Agent.t) (v : t) :
  Agent.is_moving a = true -> Agent.velocity a = PVec v ->
  Agent.position a <> Agent.position b ->
  let d := sub (Agent.position a) (Agent.position b) in
  let tangent := mk (- y d / norm d) (x d / norm d) in
  norm tangent = 1 /\ dot tangent d = 0 /\
  (0 < norm v ->
     Agent.interact_with_agent a b
       = Ok (Agent.set_velocity a (PVec (mul tangent (norm v)))) /\
     norm (mul tangent (norm v)) = norm v) /\
  (norm v = 0 -> Agent.interact_with_agent a b = Ok a).
Proof.
  intros Hm Hv Hp d tangent.
  assert (Hd : d <> zero) by (apply sub_nonzero, Hp).
  assert (Hn : norm d <> 0) by (intros E; apply Hd, norm_zero_iff, E).
  pose proof (rotate_quarter d) as Hq.
  pose proof (norm_rotate d (PI / 2)) as Hmag.
  assert (Hq0 : rotate d (PI / 2) <> zero).
  { intros E. apply Hn. rewrite <- Hmag. apply norm_zero_iff, E. }
  assert (Hnorm : normalize (rotate d (PI / 2)) = Ok tangent).
  { rewrite (normalize_nonzero _ Hq0), Hmag, Hq. reflexivity. }
  assert (Hunit : norm tangent = 1).
  { pose proof (norm_unit_of_normalize _ Hq0) as H.
    rewrite Hmag, Hq in H. exact H. }
  assert (Hcall : Agent.interact_with_agent a b =
                  if Rltb 0 (norm v)
                  then Ok (Agent.set_velocity a (PVec (mul tangent (norm v))))
                  else Ok a).
  { unfold Agent.interact_with_agent. rewrite Hm. cbn [negb]. fold d.
    rewrite magnitude_ok. cbn [bind]. rewrite Reqb_false by exact Hn.
    rewrite Hnorm, Hv. cbn [bind as_vector]. rewrite magnitude_ok. reflexivity. }
  split; [exact Hunit |]. split; [| split].
  - unfold dot, tangent. cbn [x y]. field. exact Hn.
  - intros Hs. rewrite Hcall, Rltb_true by exact Hs. split; [reflexivity |].
    rewrite norm_mul, Hunit, Rabs_pos_eq by lra. ring.
  - intros Hs. rewrite Hcall, Rltb_false by lra. reflexivity.
Qed.

Lemma interact_with_agent_redirects_witness :
  Agent.interact_with_agent (origin_agent true) tired_agent
  = Ok (Agent.set_velocity (origin_agent true)
          (PVec (mul (mk (- (0 - 50) / norm (mk (0 - 50) (0 - 50)))
                         ((0 - 50) / norm (mk (0 - 50) (0 - 50))))
                     (norm (mk 3 4))))).
Proof.
  assert (Hp : Agent.position (origin_agent true) <> Agent.position tired_agent).
  { cbn. intros [= H _]. lra. }
  apply (interact_with_agent_redirects (origin_agent true) tired_agent (mk 3 4)
           eq_refl eq_refl Hp).
  rewrite norm_3_4. lra.
Defined.

Lemma tangent_unit (b : Boundary.t) (p : t) (s : R) :
  norm (mul (Boundary.get_tangent_at_point b p) s) = Rabs s.
Proof.
  rewrite norm_mul.
  destruct (tangent_cases b p) as [[_ ->] | [_ ->]];
    rewrite norm_axis by ring; ring.
Qed.

Lemma normal_unit (b : Boundary.t) (p : t) : norm (Boundary.get_normal_at_point b p) = 1.
Proof.
  destruct (normal_cases b p) as [[_ ->] | [[_ [_ ->]] | [_ [_ [-> | ->]]]]];
    apply norm_axis; ring.
Qed.

(** [interact_with_boundary], on a moving agent within [radius + 15] of a
    wall, puts the velocity along the wall tangent at the same speed,
    on the side that does not oppose the old velocity, and moves the
    position by 2 along the normal; away from the walls the agent is
    returned as it was. *)
Theorem interact_with_boundary_deflects (a : Agent.t) (bd : Boundary.t) (v : t) :
  Agent.is_moving a = true -> Agent.velocity a = PVec v ->
  (Boundary.is_near_boundary bd (Agent.position a) (Agent.radius a + 15) = false ->
     Agent.interact_with_boundary a bd = Ok a) /\
  (Boundary.is_near_boundary bd (Agent.position a) (Agent.radius a + 15) = true ->
     exists v',
       Agent.interact_with_boundary a bd
         = Ok (Agent.set_position (Agent.set_velocity a (PVec v'))
                 (add (Agent.position a)
                      (mul (Boundary.get_normal_at_point bd (Agent.position a)) 2))) /\
       norm v' = norm v /\
       0 <= dot v' v /\
       (v' = mul (Boundary.get_tangent_at_point bd (Agent.position a)) (norm v) \/
        v' = mul (mul (Boundary.get_tangent_at_point bd (Agent.position a)) (-1)) (norm v)) /\
       norm (mul (Boundary.get_normal_at_point bd (Agent.position a)) 2) = 2).
Proof.
  intros Hm Hv. unfold Agent.interact_with_boundary. rewrite Hm. cbn [negb].
  split; intros Hnear; rewrite Hnear; [reflexivity |].
  rewrite Hv. cbn [as_vector bind]. rewrite magnitude_ok. cbn [bind].
  set (tg := Boundary.get_tangent_at_point bd (Agent.position a)).
  pose proof (norm_nonneg v) as Hs.
  eexists. split; [reflexivity |]. split; [| split; [| split]].
  - unfold Rltb. destruct (Rlt_dec (dot v tg) 0).
    + rewrite norm_mul, norm_mul. unfold tg.
      pose proof (tangent_unit bd (Agent.position a) 1) as H1.
      rewrite norm_mul, Rabs_R1, Rmult_1_r in H1. rewrite H1.
      rewrite Rabs_left, Rabs_pos_eq by lra. ring.
    + unfold tg. rewrite tangent_unit, Rabs_pos_eq by lra. reflexivity.
  - unfold Rltb. destruct (Rlt_dec (dot v tg) 0) as [Hneg | Hpos].
    + unfold dot in *. unfold mul. cbn [x y]. nra.
    + unfold dot in *. unfold mul. cbn [x y]. nra.
  - unfold Rltb. destruct (Rlt_dec (dot v tg) 0); [right | left]; reflexivity.
  - rewrite norm_mul, normal_unit, Rabs_pos_eq by lra. ring.
Qed.

Lemma interact_with_boundary_deflects_witness :
  exists v',
    Agent.interact_with_boundary (origin_agent true) (Boundary.new 100 100)
      = Ok (Agent.set_position (Agent.set_velocity (origin_agent true) (PVec v'))
              (add (mk 0 0) (mul (Boundary.get_normal_at_point (Boundary.new 100 100)
                                    (mk 0 0)) 2))) /\
    norm v' = norm (mk 3 4).
Proof.
  destruct (interact_with_boundary_deflects (origin_agent true) (Boundary.new 100 100)
              (mk 3 4) eq_refl eq_refl) as [_ Hnear].
  destruct Hnear as [v' [E [Hn _]]].
  - apply is_near_boundary_spec. cbn. lra.
  - exists v'. split; [exact E | exact Hn].
Defined.

(** [detect_collision] is symmetric in the two agents, holds of an agent
    and itself for every radius that is not negative, fails for every
    negative radius, and once it holds it holds for every larger radius. *)
Theorem detect_collision_symmetric (a b : Agent.t) (r r' : R) :
  Agent.detect_collision a b r = Agent.detect_collision b a r /\
  (0 <= r -> Agent.detect_collision a a r = Ok true) /\
  (r < 0 -> Agent.detect_collision a b r = Ok false) /\
  (r <= r' -> Agent.detect_collision a b r = Ok true ->
   Agent.detect_collision a b r' = Ok true).
Proof.
  unfold Agent.detect_collision, distance_to. rewrite !magnitude_ok. cbn [bind].
  split; [rewrite norm_sub_sym; reflexivity |]. split; [| split].
  - intros Hr. rewrite norm_sub_self, Rleb_true by exact Hr. reflexivity.
  - intros Hr. pose proof (norm_nonneg (sub (Agent.position a) (Agent.position b))).
    rewrite Rleb_false by lra. reflexivity.
  - intros Hle [= H]. apply Rleb_spec in H. rewrite Rleb_true by lra. reflexivity.
Qed.

Lemma detect_collision_symmetric_witness :
  Agent.detect_collision tired_agent tired_agent 10 = Ok true.
Proof.
  apply (proj1 (proj2 (detect_collision_symmetric tired_agent tired_agent 10 10))). lra.
Defined.

End AgentResponses.

(** ** The update of one agent, called directly *)

Section DirectUpdate.
Import Vector2D Vector2DFacts.

Lemma uniform_0_1 (g : Rng) :
  uniform 0 1 g = (0 + (1 - 0) * stream g (cursor g), mkRng (stream g) (S (cursor g))).
Proof. reflexivity. Qed.

Lemma norm_polar (angle b : R) : norm (mk (cos angle * b) (sin angle * b)) = Rabs b.
Proof.
  change (mk (cos angle * b) (sin angle * b)) with (mul (mk (cos angle) (sin angle)) b).
  rewrite norm_mul, norm_axis; [ring |].
  pose proof (sin_cos_sqr angle). nra.
Qed.

(** The energy update of a resting agent adds [nrg_gain * max_energy],
    capped at [max_energy].  Below the cap the agent stays resting and no
    random number is read.  At the cap one number is read: below [0.3] the
    agent moves again, with energy [max_energy] and a velocity of length
    [|base_speed|] whose angle comes from a second number; otherwise it stays
    resting.  So an agent starts moving only at [energy = max_energy]. *)
Theorem resting_energy_update_cases (a : Agent.t) (dt : R) (g : Rng) :
  Agent.is_moving a = false ->
  let e := py_min (Agent.energy a + Agent.nrg_gain a * Agent.max_energy a)
             (Agent.max_energy a) in
  let u := stream g (cursor g) in
  let g1 := mkRng (stream g) (S (cursor g)) in
  let g2 := mkRng (stream g) (S (S (cursor g))) in
  (e <> Agent.max_energy a ->
     Agent.energy_update a dt g = Ok (Agent.set_energy a e, g)) /\
  (e = Agent.max_energy a -> 3 / 10 <= u ->
     Agent.energy_update a dt g = Ok (Agent.set_energy a e, g1)) /\
  (e = Agent.max_energy a -> u < 3 / 10 ->
     exists w,
       Agent.energy_update a dt g
         = Ok (Agent.set_velocity (Agent.set_is_moving (Agent.set_energy a e) true)
                 (PVec w), g2) /\
       norm w = Rabs (Agent.base_speed a)) /\
  (forall a' g', Agent.energy_update a dt g = Ok (a', g') ->
     Agent.is_moving a' = true -> Agent.energy a' = Agent.max_energy a').
Proof.
  intros Hm e u g1 g2.
  assert (Hu : 0 + (1 - 0) * u = u) by ring.
  assert (Hcall : Agent.energy_update a dt g =
    if Reqb e (Agent.max_energy a) then
      if Rltb u (3 / 10) then
        Ok (Agent.set_velocity (Agent.set_is_moving (Agent.set_energy a e) true)
              (PVec (mk (cos (0 + (2 * PI - 0) * stream g (S (cursor g)))
                         * Agent.base_speed a)
                        (sin (0 + (2 * PI - 0) * stream g (S (cursor g)))
                         * Agent.base_speed a))), g2)
      else Ok (Agent.set_energy a e, g1)
    else Ok (Agent.set_energy a e, g)).
  { unfold Agent.energy_update. rewrite Hm.
    cbn [Agent.set_energy Agent.energy Agent.nrg_gain Agent.max_energy]. fold e.
    destruct (Reqb e (Agent.max_energy a)); [| reflexivity].
    rewrite uniform_0_1. fold u. rewrite Hu.
    destruct (Rltb u (3 / 10)); reflexivity. }
  split; [| split; [| split]].
  - intros He. rewrite Hcall, Reqb_false by exact He. reflexivity.
  - intros He Hge. rewrite Hcall, Reqb_true, Rltb_false by assumption. reflexivity.
  - intros He Hlt. rewrite Hcall, Reqb_true, Rltb_true by assumption.
    eexists. split; [reflexivity |]. apply norm_polar.
  - intros a' g'. rewrite Hcall. unfold Reqb.
    destruct (Req_dec_T e (Agent.max_energy a)) as [He | He].
    + destruct (Rltb u (3 / 10)); intros [= <- _] Hmov.
      * cbn. exact He.
      * cbn in Hmov. congruence.
    + intros [= <- _] Hmov. cbn in Hmov. congruence.
Qed.

Lemma resting_energy_update_cases_witness :
  Agent.energy_update tired_agent (1 / 10) (constant_rng 0)
  = Ok (Agent.set_energy tired_agent
          (py_min (Agent.energy tired_agent
                   + Agent.nrg_gain tired_agent * Agent.max_energy tired_agent)
             (Agent.max_energy tired_agent)), constant_rng 0).
Proof.
  apply (resting_energy_update_cases tired_agent (1 / 10) (constant_rng 0) eq_refl).
  rewrite py_min_Rmin. cbn. rewrite Rmin_left by lra. lra.
Defined.

(** [update] moves a moving agent by its velocity times [delta_time], the
    velocity taken with two Gaussian terms when [std_dev] is positive, and
    adds [delta_time] to [movement_time]; a resting agent keeps its position
    and its [movement_time]. *)
Theorem update_integrates_position (a : Agent.t) (dt std : R) (g : Rng) :
  (forall v, Agent.is_moving a = true -> Agent.velocity a = PVec v ->
     exists a' g',
       Agent.update a dt std g = Ok (a', g') /\
       Agent.movement_time a' = Agent.movement_time a + dt /\
       (std <= 0 ->
          g' = g /\ Agent.position a' = add (Agent.position a) (mul v dt)) /\
       (0 < std ->
          g' = mkRng (stream g) (S (S (cursor g))) /\
          Agent.position a'
            = add (Agent.position a)
                (mul (mk (x v + stream g (cursor g) * std)
                         (y v + stream g (S (cursor g)) * std)) dt))) /\
  (Agent.is_moving a = false ->
     exists a' g',
       Agent.update a dt std g = Ok (a', g') /\
       Agent.position a' = Agent.position a /\
       Agent.movement_time a' = Agent.movement_time a).
Proof.
  split.
  - intros v Hm Hv. unfold Agent.update. rewrite Hm, Hv. cbn [as_vector bind].
    unfold Rltb. destruct (Rlt_dec 0 std) as [Hstd | Hstd].
    + destruct (add_randomness_effect (copy v) std g) as [Hfst [Hsnd _]].
      destruct (add_randomness (copy v) std g) as [rv g1]. cbn [fst snd] in Hfst, Hsnd.
      subst rv g1. cbn [bind].
      set (a0 := Agent.set_movement_time _ _).
      rewrite (energy_update_moving a0 v dt _ Hm Hv).
      destruct (Rltb _ 1); do 2 eexists; (split; [reflexivity |]);
        (split; [reflexivity |]); (split; [intros; lra |]); intros _;
        (split; reflexivity).
    + cbn [bind]. set (a0 := Agent.set_movement_time _ _).
      rewrite (energy_update_moving a0 v dt _ Hm Hv).
      destruct (Rltb _ 1); do 2 eexists; (split; [reflexivity |]);
        (split; [reflexivity |]); (split; [| intros; lra]); intros _;
        (split; reflexivity).
  - intros Hm. rewrite update_resting by exact Hm.
    unfold Agent.energy_update. rewrite Hm.
    destruct (Reqb _ _); [| do 2 eexists; split; [reflexivity | split; reflexivity]].
    destruct (uniform 0 1 g) as [u g1].
    destruct (Rltb u (3 / 10));
      [| do 2 eexists; split; [reflexivity | split; reflexivity]].
    destruct (uniform 0 (2 * PI) g1) as [angle g2].
    do 2 eexists. split; [reflexivity | split; reflexivity].
Qed.

Lemma update_integrates_position_witness :
  exists a' g',
    Agent.update tired_agent (1 / 10) 0 (constant_rng 0) = Ok (a', g') /\
    Agent.position a' = Agent.position tired_agent /\
    Agent.movement_time a' = Agent.movement_time tired_agent.
Proof.
  apply (proj2 (update_integrates_position tired_agent (1 / 10) 0 (constant_rng 0))).
  reflexivity.
Defined.

End DirectUpdate.

Section Regeneration.
Import Vector2D Vector2DFacts.

Lemma resting_update_no_wake (a : Agent.t) (dt std : R) (g : Rng) :
  Agent.is_moving a = false -> 3 / 10 <= stream g (cursor g) ->
  exists g',
    Agent.update a dt std g
      = Ok (Agent.set_energy a
              (py_min (Agent.energy a + Agent.nrg_gain a * Agent.max_energy a)
                 (Agent.max_energy a)), g') /\
    stream g' = stream g.
Proof.
  intros Hm Hu. rewrite update_resting by exact Hm.
  unfold Agent.energy_update. rewrite Hm.
  cbn [Agent.set_energy Agent.energy Agent.nrg_gain Agent.max_energy].
  destruct (Reqb _ _); [| exists g; split; reflexivity].
  rewrite uniform_0_1. rewrite Rltb_false by lra.
  eexists. split; reflexivity.
Qed.

Lemma set_energy_same (a : Agent.t) : Agent.set_energy a (Agent.energy a) = a.
Proof. destruct a. reflexivity. Qed.

(** Called directly on a resting agent that satisfies the invariant, with
    random numbers that never fall below [0.3] (so that it is never woken),
    [n] updates return the agent with energy
    [min(energy + n * nrg_gain * max_energy, max_energy)] and nothing else
    changed. *)
Theorem resting_energy_regenerates (n : nat) (a : Agent.t) (dt std : R) (g : Rng) :
  agent_inv a -> Agent.is_moving a = false ->
  (forall k : nat, 3 / 10 <= stream g k) ->
  exists g',
    updates n a dt std g
      = Ok (Agent.set_energy a
              (Rmin (Agent.energy a + INR n * (Agent.nrg_gain a * Agent.max_energy a))
                 (Agent.max_energy a)), g') /\
    stream g' = stream g.
Proof.
  revert a g. induction n as [| n IH]; intros a g Hinv Hm Hs.
  - exists g. split; [| reflexivity]. cbn [updates INR].
    destruct Hinv as [He _].
    rewrite Rmult_0_l, Rplus_0_r, Rmin_left by lra.
    rewrite set_energy_same. reflexivity.
  - destruct (resting_update_no_wake a dt std g Hm (Hs _)) as [g1 [Hu Hg1]].
    cbn [updates]. rewrite Hu. cbn [bind].
    set (e1 := py_min _ _).
    pose proof Hinv as [He [[Hd Hgn] Hw]].
    assert (Hc : 0 <= Agent.nrg_gain a * Agent.max_energy a) by nra.
    assert (He1 : e1 = Rmin (Agent.energy a + Agent.nrg_gain a * Agent.max_energy a)
                         (Agent.max_energy a)) by apply py_min_Rmin.
    assert (Hb : Agent.energy a <= e1 <= Agent.max_energy a).
    { rewrite He1. unfold Rmin. destruct (Rle_dec _ _); lra. }
    destruct (IH (Agent.set_energy a e1) g1) as [g2 [Hn Hg2]].
    + inv_fields. intros H. congruence.
    + exact Hm.
    + intros k. rewrite Hg1. apply Hs.
    + exists g2. split; [| congruence]. rewrite Hn.
      cbn [Agent.set_energy Agent.energy Agent.nrg_gain Agent.max_energy
           Agent.position Agent.velocity Agent.radius Agent.nrg_decay Agent.is_moving
           Agent.movement_time Agent.base_speed].
      do 3 f_equal. rewrite S_INR, He1.
      set (c := Agent.nrg_gain a * Agent.max_energy a) in *.
      pose proof (pos_INR n) as Hn0.
      assert (Hnc : 0 <= INR n * c) by nra.
      unfold Rmin. repeat destruct (Rle_dec _ _); nra.
Qed.

Lemma resting_energy_regenerates_witness :
  exists g',
    updates 3 tired_agent (1 / 10) 0 (constant_rng (1 / 2))
      = Ok (Agent.set_energy tired_agent
              (Rmin (Agent.energy tired_agent
                     + INR 3 * (Agent.nrg_gain tired_agent
                                * Agent.max_energy tired_agent))
                 (Agent.max_energy tired_agent)), g') /\
    stream g' = stream (constant_rng (1 / 2)).
Proof.
  apply (resting_energy_regenerates 3 tired_agent (1 / 10) 0 (constant_rng (1 / 2))).
  - apply tired_agent_inv.
  - reflexivity.
  - intros k. cbn. lra.
Defined.

End Regeneration.

(** ** Relations that the passes of a simulation step keep *)

Section Lifting.
Import Vector2D Vector2DFacts.

Variable Rel : Agent.t -> Agent.t -> Prop.
Hypothesis Rel_refl : forall a, agent_inv a -> Rel a a.
Hypothesis Rel_trans : forall a b c, Rel a b -> Rel b c -> Rel a c.
Hypothesis Rel_inv : forall a b, Rel a b -> agent_inv b.

Hypothesis Rel_update : forall a dt std g,
  agent_inv a -> 0 <= dt -> Agent.is_moving a = true ->
  exists a' g', Agent.update a dt std g = Ok (a', g') /\ Rel a a'.
Hypothesis Rel_agent : forall a b,
  agent_inv a -> Agent.is_moving a = true ->
  exists a', Agent.interact_with_agent a b = Ok a' /\ Rel a a'.
Hypothesis Rel_boundary : forall a bd,
  agent_inv a -> Agent.is_moving a = true ->
  exists a', Agent.interact_with_boundary a bd = Ok a' /\ Rel a a'.

Lemma lift_refl (l : list Agent.t) : Forall agent_inv l -> Forall2 Rel l l.
Proof.
  intros H. apply Forall_Forall2_diag. eapply Forall_impl; [exact H |].
  intros a Ha. apply Rel_refl, Ha.
Qed.

Lemma lift_inv (l l' : list Agent.t) : Forall2 Rel l l' -> Forall agent_inv l'.
Proof.
  induction 1 as [| a a' l l' Ha _ IH]; constructor; [eapply Rel_inv; eassumption |].
  exact IH.
Qed.

Lemma lift_trans (l1 l2 l3 : list Agent.t) :
  Forall2 Rel l1 l2 -> Forall2 Rel l2 l3 -> Forall2 Rel l1 l3.
Proof.
  intros H. revert l3. induction H as [| a b l1 l2 Hab _ IH]; intros l3 H23.
  - inversion H23. constructor.
  - inversion H23 as [| b' c l2' l3' Hbc Hrest]; subst. constructor.
    + eapply Rel_trans; eassumption.
    + apply IH, Hrest.
Qed.

Lemma lift_insert (l0 l : list Agent.t) (i : nat) (a b : Agent.t) :
  Forall2 Rel l0 l -> l !! i = Some a -> Rel a b -> Forall2 Rel l0 (<[i := b]> l).
Proof.
  intros H. revert i. induction H as [| x y l0 l Hxy Hrest IH]; intros i Hi Hab.
  - constructor.
  - destruct i as [| i]; cbn in *.
    + injection Hi as ->. constructor; [| assumption].
      eapply Rel_trans; eassumption.
    + constructor; [assumption |]. apply IH; assumption.
Qed.

Lemma lift_update_loop (dt std : R) (l : list Agent.t) (g : Rng) :
  Forall agent_inv l -> 0 <= dt ->
  exists l' g', Simulation.update_loop dt std l g = Ok (l', g') /\ Forall2 Rel l l'.
Proof.
  intros Hl Hdt. revert g. induction Hl as [| a l Ha _ IH]; intros g.
  - do 2 eexists. split; [reflexivity | constructor].
  - cbn [Simulation.update_loop]. unfold Agent.can_move.
    destruct (Agent.is_moving a) eqn:Hm.
    + destruct (Rel_update a dt std g Ha Hdt Hm) as [a' [g1 [-> Hr]]]. cbn [bind].
      destruct (IH g1) as [l' [g2 [-> Hl']]]. cbn [bind].
      do 2 eexists. split; [reflexivity |]. constructor; assumption.
    + cbn [bind]. destruct (IH g) as [l' [g2 [-> Hl']]]. cbn [bind].
      do 2 eexists. split; [reflexivity |]. constructor; [apply Rel_refl, Ha | exact Hl'].
Qed.

Lemma lift_guarded_interact (a b : Agent.t) :
  agent_inv a ->
  exists a', (if Agent.can_move a then Agent.interact_with_agent a b else Ok a) = Ok a'
             /\ Rel a a'.
Proof.
  intros Ha. unfold Agent.can_move. destruct (Agent.is_moving a) eqn:Hm.
  - apply Rel_agent; assumption.
  - exists a. split; [reflexivity | apply Rel_refl, Ha].
Qed.

Lemma lift_interact_pair (r : R) (i j : nat) (l0 l : list Agent.t) :
  Forall2 Rel l0 l -> (i < length l)%nat -> (j < length l)%nat ->
  exists l', Simulation.interact_pair r i j l = Ok l' /\ Forall2 Rel l0 l'.
Proof.
  intros Hk Hi Hj. unfold Simulation.interact_pair.
  destruct (getitem_lt l i Hi) as [a1 [H1 ->]].
  destruct (getitem_lt l j Hj) as [a2 [H2 ->]]. cbn [bind].
  pose proof (lift_inv _ _ Hk) as Hinv.
  assert (Ha1 : agent_inv a1) by (eapply Forall_lookup_1; eassumption).
  assert (Ha2 : agent_inv a2) by (eapply Forall_lookup_1; eassumption).
  destruct (negb (Agent.can_move a1) && negb (Agent.can_move a2));
    [exists l; tauto |].
  unfold Agent.detect_collision, distance_to. rewrite magnitude_ok. cbn [bind].
  destruct (Rleb _ r); [| exists l; tauto].
  destruct (lift_guarded_interact a1 a2 Ha1) as [a1' [-> Hk1]]. cbn [bind].
  destruct (lift_guarded_interact a2 a1' Ha2) as [a2' [-> Hk2]]. cbn [bind].
  eexists. split; [reflexivity |].
  pose proof (lift_insert l0 l i a1 a1' Hk H1 Hk1) as Hk'.
  destruct (Nat.eq_dec i j) as [-> | Hne].
  - rewrite list_insert_insert_eq. apply (lift_insert l0 l j a2 a2' Hk H2 Hk2).
  - apply (lift_insert l0 _ j a2 a2' Hk'); [| exact Hk2].
    rewrite list_lookup_insert_ne by exact Hne. exact H2.
Qed.

Lemma lift_check_interactions (sim : Simulation.t) :
  Forall agent_inv (Simulation.agents sim) ->
  exists l', Simulation.check_interactions sim = Ok (Simulation.set_agents sim l') /\
             Forall2 Rel (Simulation.agents sim) l'.
Proof.
  intros Hinv. unfold Simulation.check_interactions.
  set (l0 := Simulation.agents sim).
  destruct (for_each_inv (fun l => Forall2 Rel l0 l)
              (fun i => (i < length l0)%nat) (seq 0 (length l0))
              (Simulation.check_interactions_from (Simulation.interaction_radius sim))
              l0) as [l' [-> Hk]].
  - intros i l Hi Hk. unfold Simulation.check_interactions_from.
    apply (for_each_inv (fun l => Forall2 Rel l0 l) (fun j => (j < length l0)%nat)).
    + intros j l1 Hj Hk1. pose proof (Forall2_length _ _ _ Hk1) as Hlen1.
      apply lift_interact_pair; [exact Hk1 | lia | lia].
    + pose proof (Forall2_length _ _ _ Hk) as Hlen.
      apply Forall_forall. intros j Hj. apply elem_of_seq in Hj. lia.
    + exact Hk.
  - apply Forall_forall. intros i Hi. apply elem_of_seq in Hi. lia.
  - apply lift_refl, Hinv.
  - cbn [bind]. exists l'. split; [reflexivity | exact Hk].
Qed.

Lemma lift_boundary_loop (bd : Boundary.t) (l : list Agent.t) :
  Forall agent_inv l ->
  exists l', Simulation.boundary_loop bd l = Ok l' /\ Forall2 Rel l l'.
Proof.
  intros Hl. induction Hl as [| a l Ha _ IH].
  - eexists. split; [reflexivity | constructor].
  - cbn [Simulation.boundary_loop]. unfold Agent.can_move.
    destruct IH as [l' [IHe IHr]].
    destruct (Agent.is_moving a) eqn:Hm.
    + destruct (Rel_boundary a bd Ha Hm) as [a' [-> Hr]]. cbn [bind].
      rewrite IHe. cbn [bind]. eexists. split; [reflexivity |]. constructor; assumption.
    + cbn [bind]. rewrite IHe. cbn [bind]. eexists. split; [reflexivity |].
      constructor; [apply Rel_refl, Ha | exact IHr].
Qed.

Lemma lift_update (sim : Simulation.t) (g : Rng) :
  Forall agent_inv (Simulation.agents sim) -> 0 <= Simulation.time_step sim ->
  exists l' g',
    Simulation.update sim g
      = Ok (Simulation.mk (Simulation.boundary sim) l' (Simulation.interaction_radius sim)
              (Simulation.time_step sim) (Simulation.random_std_dev sim)
              (Simulation.current_time sim + Simulation.time_step sim), g') /\
    Forall2 Rel (Simulation.agents sim) l'.
Proof.
  intros Hinv Hdt. unfold Simulation.update.
  destruct (lift_update_loop (Simulation.time_step sim) (Simulation.random_std_dev sim)
              (Simulation.agents sim) g Hinv Hdt) as [l1 [g1 [-> Hk1]]].
  cbn [bind].
  destruct (lift_check_interactions (Simulation.set_agents sim l1)) as [l2 [-> Hk2]];
    [exact (lift_inv _ _ Hk1) |].
  cbn [bind]. unfold Simulation.check_boundary_collisions.
  cbn [Simulation.set_agents Simulation.agents Simulation.boundary] in *.
  destruct (lift_boundary_loop (Simulation.boundary sim) l2) as [l3 [-> Hk3]];
    [exact (lift_inv _ _ Hk2) |].
  cbn [bind]. exists l3, g1. split; [reflexivity |].
  eapply lift_trans; [| exact Hk3]. eapply lift_trans; eassumption.
Qed.

Lemma lift_steps (n : nat) (sim : Simulation.t) (g : Rng) :
  Forall agent_inv (Simulation.agents sim) -> 0 <= Simulation.time_step sim ->
  exists l' g',
    Simulation.steps n sim g
      = Ok (Simulation.mk (Simulation.boundary sim) l' (Simulation.interaction_radius sim)
              (Simulation.time_step sim) (Simulation.random_std_dev sim)
              (Simulation.current_time sim + INR n * Simulation.time_step sim), g') /\
    Forall2 Rel (Simulation.agents sim) l'.
Proof.
  revert sim g. induction n as [| n IH]; intros sim g Hinv Hdt.
  - exists (Simulation.agents sim), g. split; [| apply lift_refl, Hinv].
    cbn [Simulation.steps INR]. rewrite Rmult_0_l, Rplus_0_r.
    destruct sim. reflexivity.
  - cbn [Simulation.steps].
    destruct (lift_update sim g Hinv Hdt) as [l1 [g1 [-> Hk1]]]. cbn [bind].
    set (sim1 := Simulation.mk _ _ _ _ _ _).
    destruct (IH sim1 g1) as [l2 [g2 [-> Hk2]]].
    + exact (lift_inv _ _ Hk1).
    + exact Hdt.
    + exists l2, g2. split.
      * unfold sim1. cbn [Simulation.boundary Simulation.interaction_radius
          Simulation.time_step Simulation.random_std_dev Simulation.current_time].
        rewrite S_INR.
        replace (Simulation.current_time sim + Simulation.time_step sim
                 + INR n * Simulation.time_step sim)
          with (Simulation.current_time sim + (INR n + 1) * Simulation.time_step sim)
          by ring.
        reflexivity.
      * eapply lift_trans; [exact Hk1 | exact Hk2].
Qed.

End Lifting.

(** ** The passes of a simulation step *)

Section StepPasses.
Import Vector2D Vector2DFacts.

Lemma set_velocity_same (a : Agent.t) : Agent.set_velocity a (Agent.velocity a) = a.
Proof. destruct a. reflexivity. Qed.

Lemma redirected_refl (a : Agent.t) : agent_inv a -> redirected a a.
Proof.
  intros H. split; [exact H |]. split; [| reflexivity].
  symmetry. apply set_velocity_same.
Qed.

Lemma redirected_trans (a b c : Agent.t) :
  redirected a b -> redirected b c -> redirected a c.
Proof.
  intros [_ [Hb Hsb]] [Hc [Hcc Hsc]]. split; [exact Hc |]. split; [| congruence].
  rewrite Hcc at 1. rewrite Hb. reflexivity.
Qed.

Lemma interact_with_agent_shape (a b : Agent.t) :
  agent_inv a -> exists a', Agent.interact_with_agent a b = Ok a' /\ redirected a a'.
Proof.
  intros Hinv. unfold Agent.interact_with_agent.
  destruct (Agent.is_moving a) eqn:Hm; cbn [negb];
    [| exists a; split; [reflexivity | apply redirected_refl, Hinv]].
  rewrite magnitude_ok. cbn [bind].
  set (d := sub (Agent.position a) (Agent.position b)).
  unfold Reqb. destruct (Req_dec_T (norm d) 0) as [Hz | Hnz];
    [exists a; split; [reflexivity | apply redirected_refl, Hinv] |].
  assert (Hq : norm (rotate d (PI / 2)) <> 0) by (rewrite norm_rotate; exact Hnz).
  assert (Hq0 : rotate d (PI / 2) <> zero).
  { intros E. apply Hq, norm_zero_iff, E. }
  rewrite (normalize_nonzero _ Hq0). cbn [bind].
  pose proof (norm_unit_of_normalize _ Hq0) as Hunit.
  set (tg := mk _ _) in *.
  pose proof Hinv as [_ [_ Hw]]. destruct (Hw Hm) as [v Hv]. rewrite Hv.
  cbn [as_vector bind]. rewrite magnitude_ok. cbn [bind].
  unfold Rltb. destruct (Rlt_dec 0 (norm v)) as [Hs | Hs];
    [| exists a; split; [reflexivity | apply redirected_refl, Hinv]].
  eexists. split; [reflexivity |]. split; [apply agent_inv_set_vector, Hinv |].
  split; [reflexivity |].
  unfold Agent.speed. cbn [Agent.set_velocity Agent.velocity]. rewrite Hv.
  rewrite norm_mul, Hunit, Rabs_pos_eq by lra. ring.
Qed.

Lemma interact_with_boundary_shape (a : Agent.t) (bd : Boundary.t) :
  agent_inv a -> Agent.is_moving a = true ->
  exists a', Agent.interact_with_boundary a bd = Ok a' /\ deflected a a'.
Proof.
  intros Hinv Hm. unfold Agent.interact_with_boundary. rewrite Hm. cbn [negb].
  destruct (Boundary.is_near_boundary _ _ _).
  2: { exists a. split; [reflexivity |]. unfold deflected. tauto. }
  pose proof Hinv as [_ [_ Hw]]. destruct (Hw Hm) as [v Hv]. rewrite Hv.
  cbn [as_vector bind]. rewrite magnitude_ok. cbn [bind].
  pose proof (norm_nonneg v) as Hs.
  eexists. split; [reflexivity |]. split; [| split; [| split; [| split]]].
  - apply agent_inv_set_position, agent_inv_set_vector, Hinv.
  - unfold Agent.speed. cbn [Agent.set_position Agent.set_velocity Agent.velocity].
    rewrite Hv. destruct (Rltb _ 0).
    + rewrite norm_mul, norm_mul.
      pose proof (tangent_unit bd (Agent.position a) 1) as H1.
      rewrite norm_mul, Rabs_R1, Rmult_1_r in H1. rewrite H1.
      rewrite Rabs_left, Rabs_pos_eq by lra. ring.
    + rewrite tangent_unit, Rabs_pos_eq by lra. reflexivity.
  - reflexivity.
  - reflexivity.
  - right. cbn [Agent.set_position Agent.set_velocity Agent.position].
    set (p := Agent.position a). set (nm := Boundary.get_normal_at_point bd p).
    replace (sub (add p (mul nm 2)) p) with (mul nm 2)
      by (unfold sub, add, mul; cbn [x y]; f_equal; ring).
    rewrite norm_mul. unfold nm. rewrite normal_unit, Rabs_pos_eq by lra. ring.
Qed.

Lemma update_energy_moving (a a' : Agent.t) (dt std : R) (g g' : Rng) :
  Agent.is_moving a = true -> Agent.update a dt std g = Ok (a', g') ->
  Agent.energy a' = decayed a dt.
Proof.
  intros Hm. unfold Agent.update. rewrite Hm.
  destruct (Agent.velocity a) as [v | k] eqn:Hv; cbn [as_vector bind].
  - destruct (Rltb 0 std).
    + destruct (add_randomness (copy v) std g) as [rv g1]. cbn [bind].
      set (a0 := Agent.set_movement_time _ _).
      rewrite (energy_update_moving a0 v dt g1 Hm Hv).
      destruct (Rltb _ 1); intros [= <- _]; reflexivity.
    + cbn [bind]. set (a0 := Agent.set_movement_time _ _).
      rewrite (energy_update_moving a0 v dt g Hm Hv).
      destruct (Rltb _ 1); intros [= <- _]; reflexivity.
  - destruct (Rltb 0 std); discriminate.
Qed.

Lemma spends_energy_refl (a : Agent.t) : agent_inv a -> spends_energy a a.
Proof. intros H. split; [exact H |]. split; [reflexivity | lra]. Qed.

Lemma spends_energy_trans (a b c : Agent.t) :
  spends_energy a b -> spends_energy b c -> spends_energy a c.
Proof.
  intros [_ [Hm1 He1]] [Hc [Hm2 He2]]. split; [exact Hc |].
  split; [congruence | lra].
Qed.

Lemma spends_energy_update (a : Agent.t) (dt std : R) (g : Rng) :
  agent_inv a -> 0 <= dt -> Agent.is_moving a = true ->
  exists a' g', Agent.update a dt std g = Ok (a', g') /\ spends_energy a a'.
Proof.
  intros Hinv Hdt Hm.
  destruct (update_inv a dt std g Hinv Hdt) as [a' [g' [E Hi]]].
  exists a', g'. split; [exact E |]. split; [exact Hi |].
  split; [eapply update_max_energy; exact E |].
  rewrite (update_energy_moving _ _ _ _ _ _ Hm E).
  apply decayed_bounds; assumption.
Qed.

Lemma spends_energy_agent (a b : Agent.t) :
  agent_inv a -> Agent.is_moving a = true ->
  exists a', Agent.interact_with_agent a b = Ok a' /\ spends_energy a a'.
Proof.
  intros Hinv _. destruct (interact_with_agent_inv a b Hinv) as [a' [E Hi]].
  exists a'. split; [exact E |].
  destruct (interact_with_agent_max_energy _ _ _ E) as [Hmax He].
  split; [exact Hi |]. split; [exact Hmax | lra].
Qed.

Lemma spends_energy_boundary (a : Agent.t) (bd : Boundary.t) :
  agent_inv a -> Agent.is_moving a = true ->
  exists a', Agent.interact_with_boundary a bd = Ok a' /\ spends_energy a a'.
Proof.
  intros Hinv _. destruct (interact_with_boundary_inv a bd Hinv) as [a' [E Hi]].
  exists a'. split; [exact E |].
  destruct (interact_with_boundary_max_energy _ _ _ E) as [Hmax He].
  split; [exact Hi |]. split; [exact Hmax | lra].
Qed.

Lemma update_speed_moving (a a' : Agent.t) (v : t) (dt std : R) (g g' : Rng) :
  Agent.is_moving a = true -> Agent.velocity a = PVec v ->
  Agent.update a dt std g = Ok (a', g') ->
  Agent.speed a' = 0 \/ Agent.speed a' = norm v * Rabs (decayed a dt).
Proof.
  intros Hm Hv. unfold Agent.update. rewrite Hm, Hv. cbn [as_vector bind].
  destruct (Rltb 0 std).
  - destruct (add_randomness (copy v) std g) as [rv g1]. cbn [bind].
    set (a0 := Agent.set_movement_time _ _).
    rewrite (energy_update_moving a0 v dt g1 Hm Hv).
    change (decayed a0 dt) with (decayed a dt).
    destruct (Rltb _ 1); intros [= <- _]; unfold Agent.speed; cbn.
    + left. apply Rabs_R0.
    + right. apply norm_mul.
  - cbn [bind]. set (a0 := Agent.set_movement_time _ _).
    rewrite (energy_update_moving a0 v dt g Hm Hv).
    change (decayed a0 dt) with (decayed a dt).
    destruct (Rltb _ 1); intros [= <- _]; unfold Agent.speed; cbn.
    + left. apply Rabs_R0.
    + right. apply norm_mul.
Qed.

Lemma slows_down_refl (a : Agent.t) : agent_inv a -> slows_down a a.
Proof. intros H. split; [apply spends_energy_refl, H | lra]. Qed.

Lemma slows_down_trans (a b c : Agent.t) :
  slows_down a b -> slows_down b c -> slows_down a c.
Proof.
  intros [Hab Hsab] [Hbc Hsbc]. split; [eapply spends_energy_trans; eassumption |].
  intros Hmax. destruct Hab as [_ [Hm _]].
  specialize (Hsab Hmax). rewrite <- Hm in Hmax. specialize (Hsbc Hmax). lra.
Qed.

Lemma slows_down_update (a : Agent.t) (dt std : R) (g : Rng) :
  agent_inv a -> 0 <= dt -> Agent.is_moving a = true ->
  exists a' g', Agent.update a dt std g = Ok (a', g') /\ slows_down a a'.
Proof.
  intros Hinv Hdt Hm.
  destruct (spends_energy_update a dt std g Hinv Hdt Hm) as [a' [g' [E Hs]]].
  exists a', g'. split; [exact E |]. split; [exact Hs |].
  intros Hmax. pose proof Hinv as [He [_ Hw]]. destruct (Hw Hm) as [v Hv].
  pose proof (decayed_bounds a dt Hinv Hdt) as Hb.
  pose proof (norm_nonneg v) as Hn.
  unfold Agent.speed at 2. rewrite Hv.
  destruct (update_speed_moving a a' v dt std g g' Hm Hv E) as [-> | ->];
    [exact Hn |].
  rewrite Rabs_pos_eq by lra. nra.
Qed.

Lemma slows_down_agent (a b : Agent.t) :
  agent_inv a -> Agent.is_moving a = true ->
  exists a', Agent.interact_with_agent a b = Ok a' /\ slows_down a a'.
Proof.
  intros Hinv Hm.
  destruct (spends_energy_agent a b Hinv Hm) as [a' [E Hs]].
  exists a'. split; [exact E |]. split; [exact Hs |]. intros _.
  destruct (interact_with_agent_shape a b Hinv) as [a2 [E2 [_ [_ Hsp]]]].
  rewrite E in E2. injection E2 as <-. lra.
Qed.

Lemma slows_down_boundary (a : Agent.t) (bd : Boundary.t) :
  agent_inv a -> Agent.is_moving a = true ->
  exists a', Agent.interact_with_boundary a bd = Ok a' /\ slows_down a a'.
Proof.
  intros Hinv Hm.
  destruct (spends_energy_boundary a bd Hinv Hm) as [a' [E Hs]].
  exists a'. split; [exact E |]. split; [exact Hs |]. intros _.
  destruct (interact_with_boundary_shape a bd Hinv Hm) as [a2 [E2 [_ [Hsp _]]]].
  rewrite E in E2. injection E2 as <-. lra.
Qed.

End StepPasses.

Section StepTheorems.
Import Vector2D Vector2DFacts.

Lemma sample_agents_inv : Forall agent_inv [origin_agent true; tired_agent].
Proof.
  constructor; [apply origin_agent_inv |].
  constructor; [apply tired_agent_inv | constructor].
Qed.

(** [check_interactions], on agents that satisfy the invariant, returns the
    same number of agents, each with its position, energy, movement state
    and every other field but the velocity as before, and with the same
    speed: the pass turns agents, it neither moves, stops nor accelerates
    them. *)
Theorem check_interactions_only_redirects (sim : Simulation.t) :
  Forall agent_inv (Simulation.agents sim) ->
  exists l',
    Simulation.check_interactions sim = Ok (Simulation.set_agents sim l') /\
    length l' = length (Simulation.agents sim) /\
    Forall2 redirected (Simulation.agents sim) l'.
Proof.
  intros Hinv.
  destruct (lift_check_interactions redirected redirected_refl redirected_trans
              (fun a b H => proj1 H)
              (fun a b Ha _ => interact_with_agent_shape a b Ha) sim Hinv)
    as [l' [E Hr]].
  exists l'. split; [exact E |]. split; [| exact Hr].
  symmetry. eapply Forall2_length, Hr.
Qed.

Lemma check_interactions_only_redirects_witness :
  exists l',
    Simulation.check_interactions (sample_simulation [origin_agent true; tired_agent])
      = Ok (Simulation.set_agents (sample_simulation [origin_agent true; tired_agent]) l')
    /\ length l' = 2%nat.
Proof.
  destruct (check_interactions_only_redirects
              (sample_simulation [origin_agent true; tired_agent])) as [l' [E [Hl _]]].
  - exact sample_agents_inv.
  - exists l'. split; [exact E | exact Hl].
Defined.

(** [check_boundary_collisions], on agents that satisfy the invariant,
    returns the same number of agents, each with the speed, the energy and
    the movement state it had, at its old position or at distance 2 from
    it. *)
Theorem check_boundary_collisions_deflects (sim : Simulation.t) :
  Forall agent_inv (Simulation.agents sim) ->
  exists l',
    Simulation.check_boundary_collisions sim = Ok (Simulation.set_agents sim l') /\
    length l' = length (Simulation.agents sim) /\
    Forall2 deflected (Simulation.agents sim) l'.
Proof.
  intros Hinv. unfold Simulation.check_boundary_collisions.
  destruct (lift_boundary_loop deflected) with (bd := Simulation.boundary sim)
    (l := Simulation.agents sim) as [l' [-> Hr]].
  - intros a Ha. unfold deflected. tauto.
  - intros a bd Ha Hm. apply interact_with_boundary_shape; assumption.
  - exact Hinv.
  - cbn [bind]. exists l'. split; [reflexivity |]. split; [| exact Hr].
    symmetry. eapply Forall2_length, Hr.
Qed.

Lemma check_boundary_collisions_deflects_witness :
  exists l',
    Simulation.check_boundary_collisions (sample_simulation [origin_agent true; tired_agent])
      = Ok (Simulation.set_agents (sample_simulation [origin_agent true; tired_agent]) l')
    /\ length l' = 2%nat.
Proof.
  destruct (check_boundary_collisions_deflects
              (sample_simulation [origin_agent true; tired_agent])) as [l' [E [Hl _]]].
  - exact sample_agents_inv.
  - exists l'. split; [exact E | exact Hl].
Defined.

Lemma slows_down_lookup (l l' : list Agent.t) :
  Forall (fun a => Agent.max_energy a <= 1) l -> Forall2 slows_down l l' ->
  forall (i : nat) (a : Agent.t),
    l !! i = Some a ->
    exists a', l' !! i = Some a' /\ agent_inv a' /\
               Agent.max_energy a' = Agent.max_energy a /\
               0 <= Agent.energy a' <= Agent.energy a /\
               Agent.speed a' <= Agent.speed a.
Proof.
  intros Hmax Hr i a Hi.
  destruct (Forall2_lookup_l _ _ _ _ _ Hr Hi) as [a' [Hi' [[Hinv [Hm Hle]] Hsp]]].
  pose proof (Forall_lookup_1 _ _ _ _ Hmax Hi) as Ha. cbv beta in Ha.
  pose proof Hinv as [He _].
  exists a'. split; [exact Hi' |]. split; [exact Hinv |]. split; [exact Hm |].
  split; [lra | apply Hsp, Ha].
Qed.

(** One [Simulation.update], on agents that satisfy the invariant and
    whose [max_energy] is at most 1, with a time step that is not negative,
    returns; it leaves the boundary, the interaction radius, the time step
    and the noise level as they were, adds [time_step] to [current_time],
    keeps the number of agents, and leaves every agent satisfying the
    invariant, with the same [max_energy], no more energy and no more speed
    than it had. *)
Theorem update_spends_energy (sim : Simulation.t) (g : Rng) :
  Forall agent_inv (Simulation.agents sim) ->
  Forall (fun a => Agent.max_energy a <= 1) (Simulation.agents sim) ->
  0 <= Simulation.time_step sim ->
  exists l' g',
    Simulation.update sim g
      = Ok (Simulation.mk (Simulation.boundary sim) l' (Simulation.interaction_radius sim)
              (Simulation.time_step sim) (Simulation.random_std_dev sim)
              (Simulation.current_time sim + Simulation.time_step sim), g') /\
    length l' = length (Simulation.agents sim) /\
    (forall (i : nat) (a : Agent.t),
       Simulation.agents sim !! i = Some a ->
       exists a', l' !! i = Some a' /\ agent_inv a' /\
                  Agent.max_energy a' = Agent.max_energy a /\
                  0 <= Agent.energy a' <= Agent.energy a /\
                  Agent.speed a' <= Agent.speed a).
Proof.
  intros Hinv Hmax Hdt.
  destruct (lift_update slows_down slows_down_refl slows_down_trans
              (fun a b H => proj1 (proj1 H)) slows_down_update slows_down_agent
              slows_down_boundary sim g Hinv Hdt) as [l' [g' [E Hr]]].
  exists l', g'. split; [exact E |]. split.
  - symmetry. eapply Forall2_length, Hr.
  - apply slows_down_lookup; assumption.
Qed.

Lemma sample_agents_max : Forall (fun a => Agent.max_energy a <= 1)
                            [origin_agent true; tired_agent].
Proof. constructor; [cbn; lra |]. constructor; [cbn; lra | constructor]. Qed.

Lemma update_spends_energy_witness :
  exists l' g',
    Simulation.update (sample_simulation [origin_agent true; tired_agent]) (constant_rng 0)
      = Ok (Simulation.mk (Boundary.new 100 100) l' 50 (1 / 10) 0 (0 + 1 / 10), g') /\
    length l' = 2%nat.
Proof.
  destruct (update_spends_energy (sample_simulation [origin_agent true; tired_agent])
              (constant_rng 0)) as [l' [g' [E [Hl _]]]].
  - exact sample_agents_inv.
  - exact sample_agents_max.
  - cbn. lra.
  - exists l', g'. split; [exact E | exact Hl].
Defined.

(** The loop of [run]: on agents that satisfy the invariant and whose
    [max_energy] is at most 1, with a time step that is not negative, [n]
    steps return, leave the configuration as it was, bring [current_time] to
    [current_time + n * time_step], keep the number of agents, and leave every
    agent with the same [max_energy], an energy between 0 and the energy it
    started with, and no more speed than it started with. *)
Theorem steps_spend_energy (n : nat) (sim : Simulation.t) (g : Rng) :
  Forall agent_inv (Simulation.agents sim) ->
  Forall (fun a => Agent.max_energy a <= 1) (Simulation.agents sim) ->
  0 <= Simulation.time_step sim ->
  exists l' g',
    Simulation.steps n sim g
      = Ok (Simulation.mk (Simulation.boundary sim) l' (Simulation.interaction_radius sim)
              (Simulation.time_step sim) (Simulation.random_std_dev sim)
              (Simulation.current_time sim + INR n * Simulation.time_step sim), g') /\
    length l' = length (Simulation.agents sim) /\
    (forall (i : nat) (a : Agent.t),
       Simulation.agents sim !! i = Some a ->
       exists a', l' !! i = Some a' /\ agent_inv a' /\
                  Agent.max_energy a' = Agent.max_energy a /\
                  0 <= Agent.energy a' <= Agent.energy a /\
                  Agent.speed a' <= Agent.speed a).
Proof.
  intros Hinv Hmax Hdt.
  destruct (lift_steps slows_down slows_down_refl slows_down_trans
              (fun a b H => proj1 (proj1 H)) slows_down_update slows_down_agent
              slows_down_boundary n sim g Hinv Hdt) as [l' [g' [E Hr]]].
  exists l', g'. split; [exact E |]. split.
  - symmetry. eapply Forall2_length, Hr.
  - apply slows_down_lookup; assumption.
Qed.

Lemma steps_spend_energy_witness :
  exists l' g',
    Simulation.steps 5 (sample_simulation [origin_agent true; tired_agent]) (constant_rng 0)
      = Ok (Simulation.mk (Boundary.new 100 100) l' 50 (1 / 10) 0
              (0 + INR 5 * (1 / 10)), g') /\
    length l' = 2%nat.
Proof.
  destruct (steps_spend_energy 5 (sample_simulation [origin_agent true; tired_agent])
              (constant_rng 0)) as [l' [g' [E [Hl _]]]].
  - exact sample_agents_inv.
  - exact sample_agents_max.
  - cbn. lra.
  - exists l', g'. split; [exact E | exact Hl].
Defined.

Lemma set_agents_same (sim : Simulation.t) :
  Simulation.set_agents sim (Simulation.agents sim) = sim.
Proof. destruct sim. reflexivity. Qed.

Lemma update_empty (sim : Simulation.t) (g : Rng) :
  Simulation.agents sim = [] ->
  Simulation.update sim g
    = Ok (Simulation.set_current_time sim
            (Simulation.current_time sim + Simulation.time_step sim), g).
Proof.
  intros He. unfold Simulation.update, Simulation.check_interactions,
    Simulation.check_boundary_collisions. rewrite He.
  cbn. rewrite <- He, set_agents_same. reflexivity.
Qed.

(** A simulation without agents: every step returns without reading a
    random number, whatever the time step, and [n] steps only bring
    [current_time] to [current_time + n * time_step]. *)
Theorem steps_without_agents (n : nat) (sim : Simulation.t) (g : Rng) :
  Simulation.agents sim = [] ->
  Simulation.steps n sim g
    = Ok (Simulation.set_current_time sim
            (Simulation.current_time sim + INR n * Simulation.time_step sim), g).
Proof.
  revert sim. induction n as [| n IH]; intros sim He.
  - cbn [Simulation.steps INR]. rewrite Rmult_0_l, Rplus_0_r.
    destruct sim. reflexivity.
  - cbn [Simulation.steps]. rewrite (update_empty sim g He). cbn [bind].
    rewrite IH by exact He. rewrite S_INR.
    unfold Simulation.set_current_time.
    cbn [Simulation.boundary Simulation.agents Simulation.interaction_radius
         Simulation.time_step Simulation.random_std_dev Simulation.current_time].
    replace (Simulation.current_time sim + Simulation.time_step sim
             + INR n * Simulation.time_step sim)
      with (Simulation.current_time sim + (INR n + 1) * Simulation.time_step sim)
      by ring.
    reflexivity.
Qed.

Lemma steps_without_agents_witness :
  Simulation.steps 4 (Simulation.new 800 600 50 (1 / 10) (1 / 10)) (constant_rng 0)
  = Ok (Simulation.set_current_time (Simulation.new 800 600 50 (1 / 10) (1 / 10))
          (0 + INR 4 * (1 / 10)), constant_rng 0).
Proof.
  apply (steps_without_agents 4 (Simulation.new 800 600 50 (1 / 10) (1 / 10))
           (constant_rng 0)).
  reflexivity.
Defined.

End StepTheorems.

(** ** Creating the agents *)

Section Initialization.
Import Vector2D Vector2DFacts.

Variables (w h : R) (er sr : R * R) (sim : Simulation.t).
Hypothesis sim_boundary : Simulation.boundary sim = Boundary.new w h.
Hypothesis w_wide : 40 <= w.
Hypothesis h_high : 40 <= h.
Hypothesis er_ok : 0 <= fst er <= snd er.
Hypothesis sr_ok : 0 <= fst sr <= snd sr.

Lemma uniform_between (lo hi u : R) :
  lo <= hi -> 0 <= u < 1 -> lo <= lo + (hi - lo) * u <= hi.
Proof. intros H Hu. nra. Qed.

Lemma initialize_agent_round (l : list Agent.t) (g : Rng) :
  (forall k : nat, 0 <= stream g k < 1) ->
  exists a,
    Simulation.initialize_agent sim er sr (l, g)
      = Ok (l ++ [a], mkRng (stream g) (5 + cursor g)) /\
    initial_agent_ok w h er sr a.
Proof.
  intros Hs. unfold Simulation.initialize_agent, uniform, next_variate.
  cbn [fst snd stream cursor]. rewrite sim_boundary.
  cbn [Boundary.new Boundary.width Boundary.height].
  unfold Agent.new. rewrite magnitude_ok. cbn [bind].
  eexists. split; [reflexivity |].
  set (c := cursor g).
  pose proof (Hs c) as H0. pose proof (Hs (S c)) as H1.
  pose proof (Hs (S (S (S c)))) as H3. pose proof (Hs (S (S (S (S c))))) as H4.
  pose proof (uniform_between (fst er) (snd er) _ (proj2 er_ok) H4) as He.
  pose proof (uniform_between (fst sr) (snd sr) _ (proj2 sr_ok) H3) as Hsp.
  pose proof (uniform_between 20 (w - 20) _ ltac:(lra) H0) as Hx.
  pose proof (uniform_between 20 (h - 20) _ ltac:(lra) H1) as Hy.
  assert (Hbase : forall th s, fst sr <= s <= snd sr ->
                    norm (mk (cos th * s) (sin th * s)) = s).
  { intros th s Hs'. rewrite norm_polar, Rabs_pos_eq; lra. }
  unfold initial_agent_ok, agent_inv, Agent.speed, Agent.default_radius,
    Agent.default_nrg_decay, Agent.default_nrg_gain.
  cbn [Agent.energy Agent.max_energy Agent.nrg_decay Agent.nrg_gain Agent.is_moving
       Agent.velocity Agent.base_speed Agent.position Agent.movement_time Agent.radius
       copy x y].
  unfold copy. cbn [x y]. rewrite (Hbase _ _ Hsp).
  repeat match goal with |- _ /\ _ => split end;
    try reflexivity; try lra.
  intros _. eexists. reflexivity.
Qed.

Lemma initialize_loop (xs : list nat) :
  forall (l : list Agent.t) (g : Rng),
    (forall k : nat, 0 <= stream g k < 1) ->
    Forall (initial_agent_ok w h er sr) l ->
    exists l' g',
      for_each xs (fun _ st => Simulation.initialize_agent sim er sr st) (l, g)
        = Ok (l', g') /\
      length l' = (length l + length xs)%nat /\
      cursor g' = (5 * length xs + cursor g)%nat /\
      stream g' = stream g /\
      Forall (initial_agent_ok w h er sr) l'.
Proof.
  induction xs as [| i xs IH]; intros l g Hs Hl.
  - exists l, g. cbn [for_each length]. split; [reflexivity |].
    repeat split; try lia; assumption.
  - cbn [for_each]. destruct (initialize_agent_round l g Hs) as [a [-> Ha]].
    cbn [bind].
    destruct (IH (l ++ [a]) (mkRng (stream g) (5 + cursor g))) as [l' [g' [E [Hlen [Hc [Hst Hall]]]]]].
    + exact Hs.
    + apply Forall_app. split; [exact Hl |]. constructor; [exact Ha | constructor].
    + exists l', g'. split; [exact E |].
      rewrite length_app in Hlen. cbn [length stream cursor] in *.
      repeat split; try lia; assumption.
Qed.

End Initialization.

Section InitializationClaim.
Import Vector2D Vector2DFacts.

(** [initialize_agents] discards the agents the simulation had and, when
    the boundary is at least 40 wide and high, the two ranges are ordered
    and start at 0 or above, and the random numbers lie in [[0,1)], creates
    exactly [num_agents] agents from five random numbers each.  Every one of
    them is moving, satisfies the invariant with [energy = max_energy] in
    the energy range, has its speed in the speed range, and lies at least 20
    inside the walls. *)
Theorem initialize_agents_creates (sim : Simulation.t) (w h : R) (num_agents : nat)
    (er sr : R * R) (g : Rng) :
  Simulation.boundary sim = Boundary.new w h -> 40 <= w -> 40 <= h ->
  0 <= fst er <= snd er -> 0 <= fst sr <= snd sr ->
  (forall k : nat, 0 <= stream g k < 1) ->
  exists l g',
    Simulation.initialize_agents sim num_agents er sr g
      = Ok (Simulation.set_agents sim l, g') /\
    length l = num_agents /\
    cursor g' = (5 * num_agents + cursor g)%nat /\
    stream g' = stream g /\
    Forall (initial_agent_ok w h er sr) l /\
    Forall (fun a => Boundary.is_within_bounds (Simulation.boundary sim)
                       (Agent.position a) = true) l.
Proof.
  intros Hb Hw Hh Her Hsr Hs. unfold Simulation.initialize_agents.
  destruct (initialize_loop w h er sr sim Hb Hw Hh Her Hsr (seq 0 num_agents) [] g Hs)
    as [l [g' [-> [Hlen [Hc [Hst Hall]]]]]]; [constructor |].
  cbn [bind]. exists l, g'. split; [reflexivity |].
  rewrite length_seq in Hlen, Hc. cbn [length] in Hlen.
  split; [lia |]. split; [exact Hc |]. split; [exact Hst |]. split; [exact Hall |].
  eapply Forall_impl; [exact Hall |].
  intros a Ha. destruct Ha as [_ [_ [_ [_ [_ [_ [[Hx Hy] _]]]]]]].
  rewrite Hb. apply is_within_bounds_spec. cbn. lra.
Qed.

Lemma initialize_agents_creates_witness :
  exists l g',
    Simulation.initialize_agents (Simulation.new 800 600 50 (1 / 10) (1 / 10)) 20
      (5, 20) (10, 30) (constant_rng (1 / 2))
      = Ok (Simulation.set_agents (Simulation.new 800 600 50 (1 / 10) (1 / 10)) l, g') /\
    length l = 20%nat.
Proof.
  destruct (initialize_agents_creates (Simulation.new 800 600 50 (1 / 10) (1 / 10))
              800 600 20 (5, 20) (10, 30) (constant_rng (1 / 2)))
    as [l [g' [E [Hl _]]]].
  - reflexivity.
  - lra.
  - lra.
  - cbn. lra.
  - cbn. lra.
  - intros k. cbn. lra.
  - exists l, g'. split; [exact E | exact Hl].
Defined.

End InitializationClaim.

(** ** Running the simulation, and reading it *)

Section Running.
Import Vector2D Vector2DFacts.

Lemma steps_keep_no_agents (n : nat) (sim : Simulation.t) (g : Rng) :
  Simulation.agents sim = [] ->
  exists sim', Simulation.steps n sim g = Ok (sim', g) /\ Simulation.agents sim' = [].
Proof.
  revert sim. induction n as [| n IH]; intros sim He.
  - exists sim. split; [reflexivity | exact He].
  - cbn [Simulation.steps]. rewrite (update_empty sim g He). cbn [bind].
    apply IH. exact He.
Qed.

Lemma print_statistics_nonempty (sim : Simulation.t) :
  Simulation.agents sim <> [] -> Simulation.print_statistics sim = Ok tt.
Proof.
  intros Hne. unfold Simulation.print_statistics.
  destruct (Simulation.agents sim) as [| a l]; [contradiction |].
  cbn [map py_min_list py_max_list bind length].
  assert (Hlen : INR (S (length (map Agent.energy l))) <> 0)
    by (apply not_0_INR; discriminate).
  assert (Hlen' : INR (S (length (map Agent.movement_time l))) <> 0)
    by (apply not_0_INR; discriminate).
  rewrite !py_div_ok by assumption. reflexivity.
Qed.

(** [run] raises [ZeroDivisionError] when the time step is 0, before any
    step is made; and on a simulation without agents it makes its steps and
    then raises [ValueError], from the minimum of an empty list in
    [print_statistics]. *)
Theorem run_raises (fl : R -> R) (sim : Simulation.t) (duration : R) (g : Rng) :
  (Simulation.time_step sim = 0 ->
     Simulation.run fl sim duration g = Raise ZeroDivisionError) /\
  (Simulation.time_step sim <> 0 -> Simulation.agents sim = [] ->
     Simulation.run fl sim duration g = Raise ValueError).
Proof.
  split.
  - intros Hz. unfold Simulation.run. rewrite Hz, py_div_zero. reflexivity.
  - intros Hnz He. unfold Simulation.run. rewrite py_div_ok by exact Hnz. cbn [bind].
    destruct (steps_keep_no_agents
                (Z.to_nat (py_int (fl (duration / Simulation.time_step sim)))) sim g He)
      as [sim' [-> He']].
    cbn [bind]. unfold Simulation.print_statistics. rewrite He'. reflexivity.
Qed.

Lemma run_raises_witness :
  Simulation.run (fun q => q) (Simulation.new 800 600 50 (1 / 10) (1 / 10)) 25
    (constant_rng 0)
  = Raise ValueError.
Proof.
  apply (proj2 (run_raises (fun q => q) (Simulation.new 800 600 50 (1 / 10) (1 / 10)) 25
                  (constant_rng 0))).
  - cbn. lra.
  - reflexivity.
Defined.

Lemma py_int_nonneg (r : R) :
  0 <= r ->
  (0 <= py_int r)%Z /\ IZR (py_int r) <= r < IZR (py_int r) + 1.
Proof.
  intros Hr. unfold py_int. rewrite Rltb_false by exact Hr.
  destruct (base_Int_part r) as [Hlo Hhi]. split; [| lra].
  assert (H : (-1 < Int_part r)%Z) by (apply lt_IZR; lra). lia.
Qed.

(** [run(duration)], with a positive time step, a duration that is not
    negative and at least one agent, all agents satisfying the invariant
    with a [max_energy] of at most 1, returns after a whole number [n] of
    steps: the number of agents and the configuration are kept and
    [current_time] grows by [n * time_step].  When the division rounds with a
    relative error of at most [eps], [n * time_step] is at most
    [duration * (1 + eps)] and one more step would pass
    [duration * (1 - eps)]. *)
Theorem run_advances_clock (fl : R -> R) (eps : R) (sim : Simulation.t)
    (duration : R) (g : Rng) :
  Forall agent_inv (Simulation.agents sim) ->
  Forall (fun a => Agent.max_energy a <= 1) (Simulation.agents sim) ->
  Simulation.agents sim <> [] ->
  0 < Simulation.time_step sim -> 0 <= duration ->
  0 <= eps < 1 -> (forall q : R, Rabs (fl q - q) <= eps * Rabs q) ->
  exists (n : nat) l' g',
    Simulation.run fl sim duration g
      = Ok (Simulation.mk (Simulation.boundary sim) l' (Simulation.interaction_radius sim)
              (Simulation.time_step sim) (Simulation.random_std_dev sim)
              (Simulation.current_time sim + INR n * Simulation.time_step sim), g') /\
    length l' = length (Simulation.agents sim) /\
    INR n * Simulation.time_step sim <= duration * (1 + eps) /\
    duration * (1 - eps) < INR n * Simulation.time_step sim + Simulation.time_step sim.
Proof.
  intros Hinv Hmax Hne Hts Hd Heps Hfl. unfold Simulation.run.
  rewrite py_div_ok by lra. cbn [bind].
  set (ratio := duration / Simulation.time_step sim).
  assert (Hratio : 0 <= ratio).
  { unfold ratio. apply Rmult_le_pos; [exact Hd |]. left. apply Rinv_0_lt_compat, Hts. }
  assert (Hround : ratio * (1 - eps) <= fl ratio <= ratio * (1 + eps)).
  { specialize (Hfl ratio). rewrite (Rabs_pos_eq ratio) in Hfl by exact Hratio.
    revert Hfl. unfold Rabs. destruct (Rcase_abs (fl ratio - ratio)); nra. }
  assert (Hr0 : 0 <= fl ratio) by nra.
  destruct (py_int_nonneg (fl ratio) Hr0) as [Hz Hbounds].
  set (n := Z.to_nat (py_int (fl ratio))).
  assert (Hn : INR n = IZR (py_int (fl ratio))).
  { unfold n. rewrite INR_IZR_INZ, Z2Nat.id by exact Hz. reflexivity. }
  destruct (lift_steps slows_down slows_down_refl slows_down_trans
              (fun a b H => proj1 (proj1 H)) slows_down_update slows_down_agent
              slows_down_boundary n sim g Hinv (Rlt_le _ _ Hts)) as [l' [g' [-> Hr]]].
  cbn [bind].
  assert (Hlen : length l' = length (Simulation.agents sim))
    by (symmetry; eapply Forall2_length, Hr).
  rewrite print_statistics_nonempty.
  - cbn [bind]. exists n, l', g'. split; [reflexivity |]. split; [exact Hlen |].
    rewrite Hn.
    assert (E : duration = ratio * Simulation.time_step sim)
      by (unfold ratio; field; lra).
    clearbody ratio. rewrite E. split; nra.
  - cbn [Simulation.agents]. intros El. apply Hne.
    rewrite El in Hlen. cbn [length] in Hlen.
    destruct (Simulation.agents sim); [reflexivity | discriminate].
Qed.

Lemma run_advances_clock_witness :
  exists (n : nat) l' g',
    Simulation.run (fun q => q) (sample_simulation [origin_agent true; tired_agent]) 25
      (constant_rng 0)
      = Ok (Simulation.mk (Boundary.new 100 100) l' 50 (1 / 10) 0
              (0 + INR n * (1 / 10)), g') /\
    length l' = 2%nat /\
    INR n * (1 / 10) <= 25 * (1 + 0) /\
    25 * (1 - 0) < INR n * (1 / 10) + 1 / 10.
Proof.
  apply (run_advances_clock (fun q => q) 0
           (sample_simulation [origin_agent true; tired_agent]) 25 (constant_rng 0)).
  - exact sample_agents_inv.
  - exact sample_agents_max.
  - discriminate.
  - cbn. lra.
  - lra.
  - lra.
  - intros q. replace (q - q) with 0 by ring. rewrite Rabs_R0. lra.
Defined.

Lemma states_from_fields (l : list Agent.t) (i : nat) :
  (forall b, In b l -> exists v, Agent.velocity b = PVec v) ->
  exists sts,
    Simulation.states_from i l = Ok sts /\
    map Simulation.id sts = seq i (length l) /\
    map Simulation.st_position sts
      = map (fun a => (x (Agent.position a), y (Agent.position a))) l /\
    map (fun s => PVec (mk (fst (Simulation.st_velocity s)) (snd (Simulation.st_velocity s))))
        sts = map Agent.velocity l /\
    map Simulation.st_energy sts = map Agent.energy l /\
    map Simulation.st_is_moving sts = map Agent.is_moving l /\
    map Simulation.st_movement_time sts = map Agent.movement_time l.
Proof.
  revert i. induction l as [| b l IH]; intros i H.
  - exists []. repeat split; reflexivity.
  - cbn [Simulation.states_from]. unfold Simulation.agent_state.
    destruct (H b (or_introl eq_refl)) as [v Hv]. rewrite Hv. cbn [as_vector bind].
    destruct (IH (S i)) as [sts [-> [Hid [Hp [Hvel [He [Hm Ht]]]]]]];
      [intros c Hc; apply H; right; exact Hc |].
    cbn [bind]. eexists. split; [reflexivity |].
    cbn [map length seq Simulation.id Simulation.st_position Simulation.st_velocity
         Simulation.st_energy Simulation.st_is_moving Simulation.st_movement_time
         fst snd].
    rewrite Hid, Hp, Hvel, He, Hm, Ht, Hv. destruct v. repeat split; reflexivity.
Qed.

(** When every agent holds a vector as its velocity, [get_agent_states]
    returns one record per agent, in order: the ids are [0, 1, ...], the
    positions are those of [get_agent_positions], and the velocity, energy,
    movement state and movement time are the agent's. *)
Theorem get_agent_states_reads_agents (sim : Simulation.t) :
  (forall b, In b (Simulation.agents sim) -> exists v, Agent.velocity b = PVec v) ->
  exists sts,
    Simulation.get_agent_states sim = Ok sts /\
    map Simulation.id sts = seq 0 (length (Simulation.agents sim)) /\
    map Simulation.st_position sts = Simulation.get_agent_positions sim /\
    map (fun s => PVec (mk (fst (Simulation.st_velocity s)) (snd (Simulation.st_velocity s))))
        sts = map Agent.velocity (Simulation.agents sim) /\
    map Simulation.st_energy sts = map Agent.energy (Simulation.agents sim) /\
    map Simulation.st_is_moving sts = map Agent.is_moving (Simulation.agents sim) /\
    map Simulation.st_movement_time sts
      = map Agent.movement_time (Simulation.agents sim).
Proof.
  intros H. unfold Simulation.get_agent_states, Simulation.get_agent_positions.
  apply states_from_fields, H.
Qed.

Lemma get_agent_states_reads_agents_witness :
  exists sts,
    Simulation.get_agent_states (sample_simulation [origin_agent true; slow_agent])
      = Ok sts /\
    map Simulation.id sts = [0%nat; 1%nat].
Proof.
  destruct (get_agent_states_reads_agents
              (sample_simulation [origin_agent true; slow_agent]))
    as [sts [E [Hid _]]].
  - intros b [<- | [<- | []]]; eexists; reflexivity.
  - exists sts. split; [exact E | exact Hid].
Defined.

End Running.

(** ** The order of the two reactions of a pair *)

Section PairOrder.
Import Vector2D Vector2DFacts.

Lemma interact_with_agent_position (a b a' : Agent.t) :
  Agent.interact_with_agent a b = Ok a' -> Agent.position a' = Agent.position a.
Proof.
  unfold Agent.interact_with_agent.
  destruct (Agent.is_moving a); cbn [negb]; [| intros [= <-]; reflexivity].
  rewrite magnitude_ok. cbn [bind]. destruct (Reqb _ 0); [intros [= <-]; reflexivity |].
  destruct (normalize _) as [tg | e]; cbn [bind]; [| discriminate].
  destruct (Agent.velocity a) as [v | n]; cbn [as_vector bind]; [| discriminate].
  rewrite magnitude_ok. cbn [bind].
  destruct (Rltb 0 (norm v)); intros [= <-]; reflexivity.
Qed.

(** [interact_with_agent] reads nothing of the other agent but its
    position, and does not change the position of the caller.  So in
    [check_interactions], where the second agent of a pair reacts to the
    first one after the first one has reacted, the second reaction is the one
    it would have been against the first agent as it was before. *)
Theorem pair_reactions_independent (a b b' a' : Agent.t) :
  (Agent.position b = Agent.position b' ->
     Agent.interact_with_agent a b = Agent.interact_with_agent a b') /\
  (Agent.interact_with_agent a b = Ok a' ->
     Agent.position a' = Agent.position a /\
     Agent.interact_with_agent b a' = Agent.interact_with_agent b a).
Proof.
  assert (Hpos : forall c d d', Agent.position d = Agent.position d' ->
            Agent.interact_with_agent c d = Agent.interact_with_agent c d').
  { intros c d d' Hp. unfold Agent.interact_with_agent. rewrite Hp. reflexivity. }
  split; [apply Hpos |].
  intros E. pose proof (interact_with_agent_position a b a' E) as Hp.
  split; [exact Hp |]. apply Hpos, Hp.
Qed.

Lemma pair_reactions_independent_witness :
  Agent.interact_with_agent (origin_agent true) tired_agent
  = Agent.interact_with_agent (origin_agent true)
      (Agent.set_velocity tired_agent (PVec (mk 1 1))).
Proof.
  apply (proj1 (pair_reactions_independent (origin_agent true) tired_agent
                  (Agent.set_velocity tired_agent (PVec (mk 1 1))) tired_agent)).
  reflexivity.
Defined.

End PairOrder.
